(** * Face-recognition endpoint: a shallow embedding of the request handler

    The repository is an Express service with one route, [POST /].  It takes a
    dataset of labelled reference images and a group photo, asks face-api.js
    for descriptors, and answers with the best match of every face found in
    the group photo.  Two variants of the server are embedded here:

    - [WorkingApi]: [src/working_api.js] (retrying image loader, entry
      validation, confidence percentages);
    - [Part000]: the live second half of [src/unnamed/part_000] (single-shot
      image loader, explicit 400 for an empty reference set).

    [src/index.js] and the commented-out first half of [part_000] are earlier
    drafts of the same route and are not embedded.

    Everything outside the repository (the network, canvas decoding, the
    face-api.js nets and matcher, the JavaScript runtime's number printing and
    TypeError texts) is a field of the record [World]; the code itself is
    written in a small writer-and-exception monad [M] whose trace lists the
    external calls and console lines in program order. *)

From Stdlib Require Import String Ascii List ZArith QArith_base Lia Bool PeanoNat.
From Stdlib Require Import Floats.PrimFloat Floats.SpecFloat Floats.FloatOps.
From Stdlib Require Import Floats.FloatAxioms.
From Stdlib Require Import Numbers.DecimalString Numbers.DecimalN.
From Stdlib Require Import Sorting.Sorted.
Import ListNotations.

Set Warnings "-register-all".
Open Scope string_scope.
Open Scope list_scope.
Open Scope nat_scope.

(** String concatenation, JavaScript's [+] on strings. *)
Infix "+++" := String.append (right associativity, at level 60).

(* ------------------------------------------------------------------ *)
(** ** JavaScript values as delivered by [express.json()] *)

(** A JavaScript number is an IEEE-754 binary64, which is what Rocq's
    primitive [float] is. Object properties are kept in source order; reading
    a property takes the first binding of the key. *)
Inductive Value : Type :=
| VUndefined
| VNull
| VBool (b : bool)
| VNum (x : float)
| VStr (s : string)
| VArr (items : list Value)
| VObj (props : list (string * Value)).

(** Thrown values. Every error the code or its libraries raise is an [Error]
    object; only its [name] and [message] are observable here. *)
Record JSError : Type := mkError { name : string; message : string }.

Definition Error (msg : string) : JSError := mkError "Error" msg.
Definition TypeError (msg : string) : JSError := mkError "TypeError" msg.

(** The outcome of a promise (or of a synchronous call that may throw). *)
Inductive Settled (A : Type) : Type :=
| Resolved (a : A)
| Rejected (e : JSError).
Arguments Resolved {A} a.
Arguments Rejected {A} e.

(* ------------------------------------------------------------------ *)
(** ** The external collaborators *)

Definition Buffer : Type := list Byte.byte.

(** A decoded canvas image; opaque to the orchestration code. *)
Record Image : Type := mkImage { width : nat; height : nat; pixels : list Byte.byte }.

(** A face descriptor, a [Float32Array] of 128 numbers. *)
Definition Descriptor : Type := list float.

(** [faceapi.LabeledFaceDescriptors]. *)
Record LabeledFaceDescriptors : Type :=
  mkLabeled { label : string; descriptors : list Descriptor }.

(** [faceapi.FaceMatch], the result of [findBestMatch]. *)
Record FaceMatch : Type := mkFaceMatch { match_label : string; match_distance : float }.

(** The three nets of [faceapi.nets] that the server loads. *)
Inductive Net : Type := faceRecognitionNet | faceLandmark68Net | ssdMobilenetv1.

(** What [fetch] resolves to: the status line and the outcome of
    [response.buffer()]. *)
Record FetchResponse : Type :=
  mkResponse { status : nat; statusText : string; buffer : Settled Buffer }.

Definition ok (r : FetchResponse) : bool :=
  (200 <=? status r) && (status r <=? 299).

(** One call of an image loader is identified by the place it is made from:
    the dataset index of a reference image, or the group image. The network
    may answer every call and every attempt of it differently. *)
Inductive CallSite : Type :=
| ReferenceImage (index : nat)
| GroupImage.

Record World : Type := mkWorld {
  (** the runtime: [Number::toString], the text of a TypeError raised on a
      value, the [stack] of an error object *)
  numberToString : float -> string;
  typeErrorText : Value -> string;
  stackOf : JSError -> string;
  (** [process.env] and [path.join(__dirname, "models")] *)
  NODE_ENV : option string;
  PORT : option string;
  modelPath : string;
  (** face-api.js: [net.loadFromDisk(modelPath)] *)
  loadFromDisk : Net -> Settled unit;
  (** node-fetch: the [attempt]-th call of [fetch(url, ...)] made from a call
      site *)
  fetch : CallSite -> Value -> nat -> Settled FetchResponse;
  (** canvas: [canvas.loadImage(buffer)] *)
  canvas_loadImage : Buffer -> Settled Image;
  (** face-api.js: [detectSingleFace(img).withFaceLandmarks().withFaceDescriptor()]
      ([None] is [undefined], no face) and
      [detectAllFaces(img).withFaceLandmarks().withFaceDescriptors()]; the
      argument is [None] when the caller hands over [undefined] *)
  detectSingleFace : option Image -> Settled (option Descriptor);
  detectAllFaces : option Image -> Settled (list Descriptor);
  (** face-api.js: [new FaceMatcher(labeled, threshold).findBestMatch(d)] *)
  findBestMatch : list LabeledFaceDescriptors -> float -> Descriptor -> FaceMatch
}.

(* ------------------------------------------------------------------ *)
(** ** Traces and the monad of the embedded code *)

Inductive Event : Type :=
| EvListen (port : string)
| EvLoadFromDisk (net : Net) (path : string)
| EvFetch (site : CallSite) (url : Value) (attempt : nat)
| EvLoadImage (buf : Buffer)
| EvDelay (ms : nat)
| EvDetectSingleFace (img : option Image)
| EvDetectAllFaces (img : option Image)
| EvConsoleLog (line : string)
| EvConsoleWarn (line : string)
| EvConsoleError (line : string) (detail : string)
| EvConsoleInspect (line : string) (shown : Value).

Definition Trace : Type := list Event.

(** A computation settles with a value or an exception and leaves the trace
    of what it did. *)
Definition M (A : Type) : Type := (Settled A * Trace)%type.

Definition ret {A} (a : A) : M A := (Resolved a, []).
Definition throw {A} (e : JSError) : M A := (Rejected e, []).
Definition emit (ev : Event) : M unit := (Resolved tt, [ev]).

Definition bind {A B} (m : M A) (k : A -> M B) : M B :=
  match m with
  | (Resolved a, t) => let (r, t') := k a in (r, t ++ t')
  | (Rejected e, t) => (Rejected e, t)
  end.

(** [try { m } catch (error) { h error }] *)
Definition try_catch {A} (m : M A) (h : JSError -> M A) : M A :=
  match m with
  | (Rejected e, t) => let (r, t') := h e in (r, t ++ t')
  | (Resolved a, t) => (Resolved a, t)
  end.

(** [await p] on an external promise whose outcome the world fixes. *)
Definition await {A} (p : Settled A) : M A := (p, []).

Declare Scope js_scope.
Delimit Scope js_scope with js.
Notation "x <- m ;; k" := (bind m (fun x => k))
  (at level 61, m at next level, right associativity) : js_scope.
Notation "m ;;; k" := (bind m (fun _ => k))
  (at level 61, right associativity) : js_scope.
Open Scope js_scope.

Definition result {A} (m : M A) : Settled A := fst m.
Definition trace {A} (m : M A) : Trace := snd m.

(** [Promise.all(ps)]: every computation of the array runs, whatever the
    others do; the result is the array of values, or the rejection of the
    first rejected element in array order. The trace lists the events element
    by element, where JavaScript interleaves them at the awaits. The callbacks
    of [dataset.map] reject, if at all, before their first await, so for them
    array order is the order in time; for the three model loads the order in
    time decides, which only shows in the text of the message. *)
Fixpoint Promise_all {A} (ps : list (M A)) : M (list A) :=
  match ps with
  | [] => ret []
  | p :: rest =>
      let (rs, ts) := Promise_all rest in
      (match fst p, rs with
       | Rejected e, _ => Rejected e
       | Resolved _, Rejected e => Rejected e
       | Resolved a, Resolved l => Resolved (a :: l)
       end, snd p ++ ts)
  end.

(** [array.map(f)], [f] seeing the index as well. *)
Fixpoint mapi_from {A B} (f : nat -> A -> B) (i : nat) (l : list A) : list B :=
  match l with
  | [] => []
  | x :: rest => f i x :: mapi_from f (S i) rest
  end.

(* ------------------------------------------------------------------ *)
(** ** The fragments of JavaScript semantics the code relies on *)

Definition nat_to_string (n : nat) : string :=
  NilZero.string_of_uint (Nat.to_uint n).

Definition is_nan (x : float) : bool := negb (PrimFloat.eqb x x).

(** ToBoolean *)
Definition truthy (v : Value) : bool :=
  match v with
  | VUndefined | VNull => false
  | VBool b => b
  | VNum x => negb (PrimFloat.eqb x 0%float) && negb (is_nan x)
  | VStr s => negb (String.eqb s "")
  | VArr _ | VObj _ => true
  end.

Definition typeof (v : Value) : string :=
  match v with
  | VUndefined => "undefined"
  | VNull | VArr _ | VObj _ => "object"
  | VBool _ => "boolean"
  | VNum _ => "number"
  | VStr _ => "string"
  end.

Definition isArray (v : Value) : bool :=
  match v with VArr _ => true | _ => false end.

Fixpoint own_property (k : string) (props : list (string * Value)) : option Value :=
  match props with
  | [] => None
  | (k', v) :: rest => if String.eqb k' k then Some v else own_property k rest
  end.

(** [v.k] for the data properties the server reads ([id], [imglink],
    [dataset], [group_img]): none of them exists on a prototype, so they are
    [undefined] on anything but an object that owns them; on [null] and
    [undefined] the access is a TypeError ([None]). *)
Definition getProp (v : Value) (k : string) : option Value :=
  match v with
  | VUndefined | VNull => None
  | VObj props =>
      match own_property k props with
      | Some x => Some x
      | None => Some VUndefined
      end
  | _ => Some VUndefined
  end.

(** The abstract operation ToString, as run by template literals and by
    [RegExp.prototype.test]; [None] is a TypeError. An array joins its
    elements with commas, [null] and [undefined] elements printing as the
    empty string. A parsed JSON object prints as [[object Object]] unless it
    owns a [toString] property, which cannot be callable. *)
Fixpoint ToString (w : World) (v : Value) : option string :=
  match v with
  | VUndefined => Some "undefined"
  | VNull => Some "null"
  | VBool true => Some "true"
  | VBool false => Some "false"
  | VNum x => Some (numberToString w x)
  | VStr s => Some s
  | VArr items =>
      option_map (String.concat ",")
        ((fix elements (l : list Value) : option (list string) :=
            match l with
            | [] => Some []
            | x :: rest =>
                match (match x with
                       | VUndefined | VNull => Some ""
                       | _ => ToString w x
                       end), elements rest with
                | Some s, Some ss => Some (s :: ss)
                | _, _ => None
                end
            end) items)
  | VObj props =>
      match own_property "toString" props with
      | Some _ => None
      | None => Some "[object Object]"
      end
  end.

(** The method call [v.toString()]. *)
Definition toString_method (w : World) (v : Value) : option string :=
  match v with
  | VUndefined | VNull => None
  | _ => ToString w v
  end.

(** A template literal hole or a method call that may raise a TypeError. *)
Definition orTypeError {A} (w : World) (v : Value) (o : option A) : M A :=
  match o with
  | Some a => ret a
  | None => throw (TypeError (typeErrorText w v))
  end.

Definition console_log (line : string) : M unit := emit (EvConsoleLog line).
Definition console_warn (line : string) : M unit := emit (EvConsoleWarn line).
Definition console_error (line detail : string) : M unit :=
  emit (EvConsoleError line detail).
Definition console_inspect (line : string) (shown : Value) : M unit :=
  emit (EvConsoleInspect line shown).

(** [const { k1, k2 } = data]: a TypeError on [null] and [undefined]. *)
Definition destructure (w : World) (data : Value) (k1 k2 : string)
  : M (Value * Value) :=
  a <- orTypeError w data (getProp data k1) ;;
  b <- orTypeError w data (getProp data k2) ;;
  ret (a, b).

(** [labeledDescriptors.filter((desc) => desc !== null)] *)
Fixpoint filter_not_null {A} (l : list (option A)) : list A :=
  match l with
  | [] => []
  | Some a :: rest => a :: filter_not_null rest
  | None :: rest => filter_not_null rest
  end.

Definition items_of (v : Value) : list Value :=
  match v with VArr items => items | _ => [] end.

(** [/^https?:\/\/.+/.test(s)]. A [string] holds the UTF-8 bytes of the
    JavaScript string. The dot matches any character but the four line
    terminators: LF and CR, one byte each, and U+2028 and U+2029, which in
    UTF-8 are the bytes E2 80 A8 and E2 80 A9. *)
Definition is_line_terminator (c : ascii) : bool :=
  (c =? "010")%char || (c =? "013")%char.

Definition line_separator : string :=
  String "226" (String "128" (String "168" EmptyString)).

Definition paragraph_separator : string :=
  String "226" (String "128" (String "169" EmptyString)).

Definition starts_with_line_terminator (s : string) : bool :=
  match s with
  | String c _ =>
      is_line_terminator c
      || String.prefix line_separator s || String.prefix paragraph_separator s
  | EmptyString => false
  end.

Fixpoint strip_prefix (p s : string) : option string :=
  match p, s with
  | EmptyString, _ => Some s
  | String a p', String b s' => if (a =? b)%char then strip_prefix p' s' else None
  | String _ _, EmptyString => None
  end.

Definition url_regex_test (s : string) : bool :=
  match strip_prefix "http" s with
  | None => false
  | Some rest =>
      let after_s := match rest with
                     | String c rest' => if (c =? "s")%char then rest' else rest
                     | EmptyString => rest
                     end in
      match strip_prefix "://" after_s with
      | Some (String c rest') => negb (starts_with_line_terminator (String c rest'))
      | _ => false
      end
  end.

(** The decimal digits of a non-negative integer. *)
Definition Z_to_string (z : Z) : string :=
  NilZero.string_of_uint (N.to_uint (Z.to_N z)).

Definition two_digits (r : Z) : string :=
  (if (r <? 10)%Z then "0" else "") +++ Z_to_string r.

(** The integer nearest to [100 * m * 2^e], the larger one on a tie. *)
Definition hundredths (m : positive) (e : Z) : Z :=
  if (0 <=? e)%Z then (100 * Z.pos m * 2 ^ e)%Z
  else ((200 * Z.pos m + 2 ^ (- e)) / 2 ^ (1 - e))%Z.

Definition at_least_1e21 (m : positive) (e : Z) : bool :=
  (0 <=? e)%Z && (10 ^ 21 <=? Z.pos m * 2 ^ e)%Z.

Definition fixed2 (n : Z) : string :=
  Z_to_string (n / 100) +++ "." +++ two_digits (n mod 100).

(** [Number.prototype.toFixed(2)], exact on the binary64 value [m * 2^e]:
    the integer [n] for which [n / 100] is nearest to the magnitude, the
    larger one on a tie, printed with two decimals and the sign in front.
    A magnitude of [10^21] or more, an infinity or a NaN prints as
    [Number::toString] does. *)
Definition toFixed2 (w : World) (x : float) : string :=
  match Prim2SF x with
  | S754_zero _ => "0.00"
  | S754_finite sign m e =>
      if at_least_1e21 m e then numberToString w x
      else (if sign then "-" else "") +++ fixed2 (hundredths m e)
  | S754_infinity _ | S754_nan => numberToString w x
  end.

(* ------------------------------------------------------------------ *)
(** ** [src/working_api.js] *)

Module WorkingApi.

Definition MAX_RETRIES : nat := 3.
Definition RETRY_DELAY : nat := 1000.
Definition FACE_MATCHER_THRESHOLD : float := 0x1.3333333333333p-1%float.

Definition delay (ms : nat) : M unit := emit (EvDelay ms).

(** One pass through the [try] block of [loadImageWithRetry]. *)
Definition attemptLoad (w : World) (site : CallSite) (url : Value) (attempt : nat)
  : M Image :=
  emit (EvFetch site url attempt) ;;;
  response <- await (fetch w site url attempt) ;;
  if negb (ok response)
  then throw (Error ("HTTP error! status: " +++ nat_to_string (status response)))
  else
    buffer <- await (buffer response) ;;
    emit (EvLoadImage buffer) ;;;
    image <- await (canvas_loadImage w buffer) ;;
    ret image.

(** The [for] loop of [loadImageWithRetry] with [remaining] iterations to
    go, the current one being [attempt = retries + 1 - remaining]. Leaving
    the loop without a [return] yields [undefined] ([None]). *)
Fixpoint retryLoop (w : World) (site : CallSite) (url : Value) (retries : nat)
    (remaining : nat) : M (option Image) :=
  match remaining with
  | 0 => ret None
  | S remaining' =>
      let attempt := retries - remaining' in
      try_catch
        (image <- attemptLoad w site url attempt ;; ret (Some image))
        (fun error =>
           shown <- orTypeError w url (ToString w url) ;;
           console_error
             ("Attempt " +++ nat_to_string attempt +++ "/" +++ nat_to_string retries
                +++ " failed for URL " +++ shown +++ ":")
             (message error) ;;;
           if attempt =? retries
           then throw (Error ("Failed to load image after " +++ nat_to_string retries
                                +++ " attempts: " +++ message error))
           else
             delay (RETRY_DELAY * attempt) ;;;
             retryLoop w site url retries remaining')
  end.

Definition loadImageWithRetry (w : World) (site : CallSite) (url : Value)
    (retries : nat) : M (option Image) :=
  retryLoop w site url retries retries.

Definition validateDatasetEntry (w : World) (entry : Value) : M bool :=
  if negb (truthy entry) || negb (String.eqb (typeof entry) "object")
  then throw (Error "Invalid dataset entry format")
  else
    id <- orTypeError w entry (getProp entry "id") ;;
    imglink <- orTypeError w entry (getProp entry "imglink") ;;
    if negb (truthy id) || negb (truthy imglink)
    then throw (Error "Missing required fields: id or imglink")
    else
      text <- orTypeError w imglink (ToString w imglink) ;;
      if negb (url_regex_test text)
      then throw (Error "Invalid image URL format")
      else ret true.

Definition processSingleFace (w : World) (index : nat) (data : Value)
  : M (option LabeledFaceDescriptors) :=
  fields <- destructure w data "id" "imglink" ;;
  let (id, imglink) := fields : Value * Value in
  try_catch
    (validateDatasetEntry w data ;;;
     shown <- orTypeError w id (ToString w id) ;;
     console_log ("Processing image for id " +++ shown) ;;;
     img <- loadImageWithRetry w (ReferenceImage index) imglink MAX_RETRIES ;;
     emit (EvDetectSingleFace img) ;;;
     detection <- await (detectSingleFace w img) ;;
     match detection with
     | None => throw (Error "No face detected in image")
     | Some descriptor =>
         text <- orTypeError w id (toString_method w id) ;;
         ret (Some (mkLabeled text [descriptor]))
     end)
    (fun error =>
       shown <- orTypeError w id (ToString w id) ;;
       console_error ("Error processing image for id " +++ shown +++ ":") (message error) ;;;
       ret None).

Definition loadLabeledImages (w : World) (dataset : list Value)
  : M (list LabeledFaceDescriptors) :=
  console_log ("Processing " +++ nat_to_string (length dataset) +++ " images from dataset") ;;;
  labeledDescriptors <- Promise_all (mapi_from (processSingleFace w) 0 dataset) ;;
  let validDescriptors := filter_not_null labeledDescriptors in
  console_log ("Generated " +++ nat_to_string (length validDescriptors)
                 +++ " valid descriptors out of " +++ nat_to_string (length dataset)
                 +++ " images") ;;;
  if length validDescriptors =? 0
  then throw (Error "No valid face descriptors could be generated from the dataset")
  else ret validDescriptors.

Definition loadNet (w : World) (net : Net) : M unit :=
  emit (EvLoadFromDisk net (modelPath w)) ;;;
  await (loadFromDisk w net).

Definition initializeModels (w : World) : M unit :=
  try_catch
    (Promise_all [loadNet w faceRecognitionNet;
                  loadNet w faceLandmark68Net;
                  loadNet w ssdMobilenetv1] ;;;
     console_log "Models loaded successfully")
    (fun error =>
       throw (Error ("Failed to load face recognition models: " +++ message error))).

(** The JSON bodies the route sends. *)
Record MatchEntry : Type :=
  mkMatch { entry_label : string; distance : float; confidence : string }.

Inductive Body : Type :=
| ClientError (error : string) (details : option string)
| ServerError (error : string) (msg : string) (stack : option string)
| Matches (success : bool) (totalFacesDetected : nat) (matches : list MatchEntry).

Record Response : Type := mkRes { statusCode : nat; body : Body }.

Record Request : Type := mkReq { req_body : Value }.

Definition matchEntry (w : World) (r : FaceMatch) : MatchEntry :=
  mkMatch (match_label r) (match_distance r)
    (toFixed2 w (PrimFloat.mul (PrimFloat.sub 1%float (match_distance r)) 100%float)
       +++ "%").

Definition development_stack (w : World) (error : JSError) : option string :=
  match NODE_ENV w with
  | Some env => if String.eqb env "development" then Some (stackOf w error) else None
  | None => None
  end.

(** The route's [catch] block. *)
Definition recover (w : World) (error : JSError) : M Response :=
  console_error "Error in POST handler:" (message error) ;;;
  ret (mkRes 500 (ServerError "Internal server error" (message error)
                    (development_stack w error))).

(** The route from "Process individual faces" to the final [res.json]. *)
Definition recognise (w : World) (dataset : list Value) (group_img : Value)
  : M Response :=
  labeledFaceDescriptors <- loadLabeledImages w dataset ;;
  image <- loadImageWithRetry w GroupImage group_img MAX_RETRIES ;;
  emit (EvDetectAllFaces image) ;;;
  detections <- await (detectAllFaces w image) ;;
  if length detections =? 0
  then ret (mkRes 400 (ClientError "No faces detected in group image" None))
  else
    console_log ("Detected " +++ nat_to_string (length detections)
                   +++ " faces in group image") ;;;
    let results :=
      map (findBestMatch w labeledFaceDescriptors FACE_MATCHER_THRESHOLD)
        detections in
    ret (mkRes 200 (Matches true (length detections)
                      (map (matchEntry w) results))).

(** [app.post("/", async (req, res) => ...)]: the response sent. *)
Definition handler (w : World) (req : Request) : M Response :=
  try_catch
    (fields <- destructure w (req_body req) "dataset" "group_img" ;;
     let (dataset, group_img) := fields : Value * Value in
     if negb (truthy dataset) || negb (isArray dataset)
        || (length (items_of dataset) =? 0)
     then ret (mkRes 400 (ClientError "Invalid dataset format"
                            (Some "Dataset must be a non-empty array")))
     else if negb (truthy group_img) || negb (String.eqb (typeof group_img) "string")
     then ret (mkRes 400 (ClientError "Invalid group_img"
                            (Some "group_img must be a valid URL string")))
     else
       initializeModels w ;;;
       recognise w (items_of dataset) group_img)
    (recover w).

(** The module's top level: nothing but [app.listen] and its two lines. *)
Definition port (w : World) : string :=
  match PORT w with
  | Some p => if String.eqb p "" then "4000" else p
  | None => "4000"
  end.

Definition startServer (w : World) : Trace :=
  [EvListen (port w);
   EvConsoleLog ("Server running on port " +++ port w);
   EvConsoleLog ("Models directory: " +++ modelPath w)].

(** A run of the process: start-up, then the requests one after the other,
    each against the world as it is when the request arrives. *)
Definition serve (w0 : World) (requests : list (World * Request)) : Trace :=
  startServer w0 ++ flat_map (fun wr => trace (handler (fst wr) (snd wr))) requests.

End WorkingApi.

(* ------------------------------------------------------------------ *)
(** ** [src/unnamed/part_000], the live code after the commented-out draft *)

Module Part000.

Definition loadImage (w : World) (site : CallSite) (url : Value) : M Image :=
  try_catch
    (emit (EvFetch site url 1) ;;;
     response <- await (fetch w site url 1) ;;
     if negb (ok response)
     then throw (Error ("Failed to fetch image: " +++ statusText response))
     else
       buffer <- await (buffer response) ;;
       emit (EvLoadImage buffer) ;;;
       image <- await (canvas_loadImage w buffer) ;;
       ret image)
    (fun error =>
       console_error "Error loading image:" (message error) ;;;
       throw error).

Definition getAbsoluteModelPath (w : World) : string := modelPath w.

(** The callback of [dataset.map] in [loadLabeledImages]. *)
Definition processEntry (w : World) (index : nat) (data : Value)
  : M (option LabeledFaceDescriptors) :=
  fields <- destructure w data "id" "imglink" ;;
  let (id, imglink) := fields : Value * Value in
  if negb (truthy id) || negb (truthy imglink)
  then console_inspect "Invalid data entry:" data ;;; ret None
  else
    try_catch
      (shown <- orTypeError w id (ToString w id) ;;
       console_log ("Processing image for id " +++ shown) ;;;
       img <- loadImage w (ReferenceImage index) imglink ;;
       emit (EvDetectSingleFace (Some img)) ;;;
       detection <- await (detectSingleFace w (Some img)) ;;
       match detection with
       | None =>
           shown' <- orTypeError w id (ToString w id) ;;
           console_warn ("No face detected in image for id: " +++ shown') ;;;
           ret None
       | Some descriptor =>
           text <- orTypeError w id (toString_method w id) ;;
           ret (Some (mkLabeled text [descriptor]))
       end)
      (fun error =>
         shown <- orTypeError w id (ToString w id) ;;
         console_error ("Error processing image " +++ shown +++ ":") (message error) ;;;
         ret None).

Definition loadLabeledImages (w : World) (dataset : list Value)
  : M (list LabeledFaceDescriptors) :=
  console_log ("Processing " +++ nat_to_string (length dataset) +++ " images from dataset") ;;;
  labeledDescriptors <- Promise_all (mapi_from (processEntry w) 0 dataset) ;;
  let validDescriptors := filter_not_null labeledDescriptors in
  console_log ("Generated " +++ nat_to_string (length validDescriptors)
                 +++ " valid descriptors") ;;;
  ret validDescriptors.

Record MatchEntry : Type := mkMatch { entry_label : string; distance : float }.

Inductive Body : Type :=
| InvalidDataset (error : string) (received : Value)
| ClientError (error : string)
| ServerError (error : string) (msg : string)
| Matches (success : bool) (matches : list MatchEntry).

Record Response : Type := mkRes { statusCode : nat; body : Body }.

Record Request : Type := mkReq { req_body : Value }.

Definition loadNet (w : World) (net : Net) : M unit :=
  emit (EvLoadFromDisk net (getAbsoluteModelPath w)) ;;;
  await (loadFromDisk w net).

(** The part of the route after the input checks; every [return res...] and
    the final [res.json] is the value of the block. *)
Definition recognise (w : World) (dataset group_img : Value) : M Response :=
  console_log "Loading models..." ;;;
  console_log ("Model path: " +++ getAbsoluteModelPath w) ;;;
  loaded <- try_catch
      (Promise_all [loadNet w faceRecognitionNet;
                    loadNet w faceLandmark68Net;
                    loadNet w ssdMobilenetv1] ;;;
       console_log "Models loaded successfully" ;;;
       ret (None : option Response))
      (fun modelError =>
         console_error "Error loading models:" (message modelError) ;;;
         ret (Some (mkRes 500 (ServerError "Failed to load face recognition models"
                                 (message modelError))))) ;;
  match loaded with
  | Some response => ret response
  | None =>
      console_log "Processing individual faces..." ;;;
      labeledFaceDescriptors <- loadLabeledImages w (items_of dataset) ;;
      if length labeledFaceDescriptors =? 0
      then ret (mkRes 400 (ClientError
                  "No valid face descriptors could be generated from the dataset"))
      else
        console_log ("Processed " +++ nat_to_string (length labeledFaceDescriptors)
                       +++ " individual faces") ;;;
        console_log "Processing group image..." ;;;
        try_catch
          (image <- loadImage w GroupImage group_img ;;
           emit (EvDetectAllFaces (Some image)) ;;;
           detections <- await (detectAllFaces w (Some image)) ;;
           console_log ("Detected " +++ nat_to_string (length detections)
                          +++ " faces in group image") ;;;
           let results :=
             map (findBestMatch w labeledFaceDescriptors 0x1.3333333333333p-1%float)
               detections in
           ret (mkRes 200 (Matches true
                             (map (fun r => mkMatch (match_label r) (match_distance r))
                                results))))
          (fun groupImageError =>
             console_error "Error processing group image:" (message groupImageError) ;;;
             ret (mkRes 500 (ServerError "Failed to process group image"
                               (message groupImageError))))
  end.

Definition handler (w : World) (req : Request) : M Response :=
  try_catch
    (console_log "Received request" ;;;
     fields <- destructure w (req_body req) "dataset" "group_img" ;;
     let (dataset, group_img) := fields : Value * Value in
     if negb (truthy dataset) || negb (isArray dataset)
     then ret (mkRes 400 (InvalidDataset "Invalid dataset format" dataset))
     else if negb (truthy group_img)
     then ret (mkRes 400 (ClientError "Missing group_img"))
     else recognise w dataset group_img)
    (fun error =>
       console_error "Error in POST handler:" (message error) ;;;
       ret (mkRes 500 (ServerError "Internal server error" (message error)))).

End Part000.

(* ------------------------------------------------------------------ *)
(** ** Observations on traces, and the sample worlds of the examples *)

Definition is_fetch (ev : Event) : bool :=
  match ev with EvFetch _ _ _ => true | _ => false end.

Definition is_load (ev : Event) : bool :=
  match ev with EvLoadFromDisk _ _ => true | _ => false end.

Definition is_detect (ev : Event) : bool :=
  match ev with EvDetectSingleFace _ | EvDetectAllFaces _ => true | _ => false end.

Definition loads_net (net : Net) (ev : Event) : bool :=
  match ev, net with
  | EvLoadFromDisk faceRecognitionNet _, faceRecognitionNet => true
  | EvLoadFromDisk faceLandmark68Net _, faceLandmark68Net => true
  | EvLoadFromDisk ssdMobilenetv1 _, ssdMobilenetv1 => true
  | _, _ => false
  end.

Definition count (p : Event -> bool) (t : Trace) : nat := length (filter p t).

(** [hay.includes(needle)] *)
Fixpoint includes (hay needle : string) : bool :=
  String.prefix needle hay ||
  match hay with
  | EmptyString => false
  | String _ hay' => includes hay' needle
  end.

(** A number printer that is [Number::toString] on the integers below
    [2^53]; the examples use it on such numbers only. *)
Definition integerToString (x : float) : string :=
  match Prim2SF x with
  | S754_zero _ => "0"
  | S754_finite sign m e =>
      (if sign then "-" else "") +++
      Z_to_string (if (0 <=? e)%Z then Z.pos m * 2 ^ e else Z.pos m / 2 ^ (- e))%Z
  | S754_infinity sign => if sign then "-Infinity" else "Infinity"
  | S754_nan => "NaN"
  end.

Definition sampleImage : Image := mkImage 2 2 [].

Definition okResponse : Settled FetchResponse :=
  Resolved (mkResponse 200 "OK" (Resolved [])).

Definition notFound : Settled FetchResponse :=
  Resolved (mkResponse 404 "Not Found" (Resolved [])).

Definition faceA : Descriptor := [0.5%float; 0.25%float].
Definition faceB : Descriptor := [0.125%float; 0.75%float].

(** A world in which every external call succeeds: each fetch is a 200, each
    reference image shows one face, the group photo two, and the matcher
    names the first reference at distance 0.25. *)
Definition calmWorld : World := {|
  numberToString := integerToString;
  typeErrorText := fun v =>
    match v with
    | VNull => "Cannot destructure property 'id' of 'data' as it is null."
    | VUndefined => "Cannot destructure property 'id' of 'data' as it is undefined."
    | _ => "Cannot convert object to primitive value"
    end;
  stackOf := fun e => name e +++ ": " +++ message e;
  NODE_ENV := None;
  PORT := None;
  modelPath := "/srv/app/models";
  loadFromDisk := fun _ => Resolved tt;
  fetch := fun _ _ _ => okResponse;
  canvas_loadImage := fun _ => Resolved sampleImage;
  detectSingleFace := fun _ => Resolved (Some faceA);
  detectAllFaces := fun _ => Resolved [faceA; faceB];
  findBestMatch := fun labeled _ _ =>
    mkFaceMatch (match labeled with l :: _ => label l | [] => "unknown" end) 0.25%float
|}.

Definition withFetch (w : World)
    (f : CallSite -> Value -> nat -> Settled FetchResponse) : World := {|
  numberToString := numberToString w;
  typeErrorText := typeErrorText w;
  stackOf := stackOf w;
  NODE_ENV := NODE_ENV w;
  PORT := PORT w;
  modelPath := modelPath w;
  loadFromDisk := loadFromDisk w;
  fetch := f;
  canvas_loadImage := canvas_loadImage w;
  detectSingleFace := detectSingleFace w;
  detectAllFaces := detectAllFaces w;
  findBestMatch := findBestMatch w
|}.

Definition withDetectAll (w : World)
    (f : option Image -> Settled (list Descriptor)) : World := {|
  numberToString := numberToString w;
  typeErrorText := typeErrorText w;
  stackOf := stackOf w;
  NODE_ENV := NODE_ENV w;
  PORT := PORT w;
  modelPath := modelPath w;
  loadFromDisk := loadFromDisk w;
  fetch := fetch w;
  canvas_loadImage := canvas_loadImage w;
  detectSingleFace := detectSingleFace w;
  detectAllFaces := f;
  findBestMatch := findBestMatch w
|}.

Definition withLoadFromDisk (w : World) (f : Net -> Settled unit) : World := {|
  numberToString := numberToString w;
  typeErrorText := typeErrorText w;
  stackOf := stackOf w;
  NODE_ENV := NODE_ENV w;
  PORT := PORT w;
  modelPath := modelPath w;
  loadFromDisk := f;
  fetch := fetch w;
  canvas_loadImage := canvas_loadImage w;
  detectSingleFace := detectSingleFace w;
  detectAllFaces := detectAllFaces w;
  findBestMatch := findBestMatch w
|}.


(** The network answers 404 to the first two attempts of every call. *)
Definition flakyWorld : World :=
  withFetch calmWorld (fun _ _ attempt => if attempt <? 3 then notFound else okResponse).

(** The network answers 404 to everything. *)
Definition deadWorld : World := withFetch calmWorld (fun _ _ _ => notFound).

(** Nothing listens at the other end: node-fetch rejects with a message that
    names the URL it was asked for. *)
Definition refusedWorld : World :=
  withFetch calmWorld
    (fun _ url _ =>
       Rejected (mkError "FetchError"
                   ("request to " +++ match url with VStr s => s | _ => "" end
                      +++ " failed, reason: connect ECONNREFUSED 127.0.0.1:80"))).

Definition entry (id imglink : Value) : Value :=
  VObj [("id", id); ("imglink", imglink)].

Definition request (dataset group_img : Value) : Value :=
  VObj [("dataset", dataset); ("group_img", group_img)].

(* ------------------------------------------------------------------ *)
(** ** The vocabulary of the specification *)

(** Step 1 of the handler in the specification: [dataset] is a non-empty
    array and [group_img] a non-empty string. *)
Definition valid_dataset (v : Value) : bool :=
  match v with
  | VArr (_ :: _) => true
  | _ => false
  end.

Definition valid_group_img (v : Value) : bool :=
  match v with
  | VStr s => negb (String.eqb s "")
  | _ => false
  end.

(** The wire type of a dataset entry, [{ id: string|number, imglink: string }].
    An entry of this type may still be unusable: a falsy id, a malformed or
    unreachable link, a picture without a face. *)
Definition is_DatasetEntry (v : Value) : bool :=
  match v with
  | VObj props =>
      match own_property "id" props, own_property "imglink" props with
      | Some (VStr _ | VNum _), Some (VStr _) => true
      | _, _ => false
      end
  | _ => false
  end.

(** "Loaded exactly once, at process start": in a run of the process each of
    the three nets is read from disk once, and that happens during start-up. *)
Definition models_loaded_once_at_start (w0 : World)
    (requests : list (World * WorkingApi.Request)) : Prop :=
  forall net,
    count (loads_net net) (WorkingApi.startServer w0) = 1 /\
    count (loads_net net) (WorkingApi.serve w0 requests) = 1.

(** The three reads of [initializeModels], in the order of the source. *)
Definition three_loads (w : World) : Trace :=
  [EvLoadFromDisk faceRecognitionNet (modelPath w);
   EvLoadFromDisk faceLandmark68Net (modelPath w);
   EvLoadFromDisk ssdMobilenetv1 (modelPath w)].

(** No event of the kind [p] in what a computation does. *)
Definition silent (p : Event -> bool) {A} (m : M A) : Prop :=
  count p (trace m) = 0.

(** Sample requests. *)
Definition adaEntry : Value :=
  entry (VStr "ada") (VStr "http://img.example/ada.jpg").

Definition groupPhoto : Value := VStr "http://photos.example/group.jpg".

Definition adaRequest : WorkingApi.Request :=
  WorkingApi.mkReq (request (VArr [adaEntry]) groupPhoto).

(** The disk gives out on the landmark net. *)
Definition brokenDiskWorld : World :=
  withLoadFromDisk calmWorld
    (fun net => match net with
                | faceLandmark68Net => Rejected (Error "ENOENT: no such file or directory")
                | _ => Resolved tt
                end).

(** The network reaches the reference images but not the group photo. *)
Definition groupUnreachableWorld : World :=
  withFetch calmWorld
    (fun site url attempt =>
       match site with
       | GroupImage => notFound
       | ReferenceImage _ => fetch calmWorld site url attempt
       end).

(** The group photo shows nobody. *)
Definition emptyPhotoWorld : World := withDetectAll calmWorld (fun _ => Resolved []).


(** An entry whose link is not an HTTP(S) URL, and one whose id is zero. *)
Definition ftpEntry : Value :=
  entry (VNum 1%float) (VStr "ftp://files.example/ada.jpg").

Definition zeroIdEntry : Value :=
  entry (VNum 0%float) (VStr "http://img.example/zero.jpg").

(* ------------------------------------------------------------------ *)
(** ** Reading a confidence back *)

(** A signed decimal numeral with [decimals] digits after the point: its
    value is [numerator / 10^decimals], negated when [negative]. *)
Record Decimal : Type :=
  mkDecimal { negative : bool; numerator : Z; decimals : nat }.

Definition is_digit (c : ascii) : bool :=
  match uint_of_char c (Some Decimal.Nil) with
  | Some _ => true
  | None => false
  end.










(* ------------------------------------------------------------------ *)
(** ** Further observations on traces and requests *)

(** The waits of a run, in milliseconds, in the order they happen. *)
Fixpoint delays (t : Trace) : list nat :=
  match t with
  | [] => []
  | EvDelay ms :: rest => ms :: delays rest
  | _ :: rest => delays rest
  end.

(** What a run does with the group image: fetching it, detecting on it. *)
Definition touches_group_image (ev : Event) : bool :=
  match ev with
  | EvFetch GroupImage _ _ | EvDetectAllFaces _ => true
  | _ => false
  end.

(** The two input tests of the route of [working_api.js], on the body of a
    request: neither of the two early [return]s is taken. *)
Definition passes_input_tests (body : Value) : bool :=
  match getProp body "dataset", getProp body "group_img" with
  | Some dataset, Some group_img =>
      negb (negb (truthy dataset) || negb (isArray dataset)
            || (length (items_of dataset) =? 0))
      && negb (negb (truthy group_img) || negb (String.eqb (typeof group_img) "string"))
  | _, _ => false
  end.

(** The [stack] property of the body of a response, when it has one. *)
Definition response_stack (res : WorkingApi.Response) : option string :=
  match WorkingApi.body res with
  | WorkingApi.ServerError _ _ stack => stack
  | _ => None
  end.

(** The same world, run with [NODE_ENV=development]. *)
Definition inDevelopment (w : World) : World := {|
  numberToString := numberToString w;
  typeErrorText := typeErrorText w;
  stackOf := stackOf w;
  NODE_ENV := Some "development";
  PORT := PORT w;
  modelPath := modelPath w;
  loadFromDisk := loadFromDisk w;
  fetch := fetch w;
  canvas_loadImage := canvas_loadImage w;
  detectSingleFace := detectSingleFace w;
  detectAllFaces := detectAllFaces w;
  findBestMatch := findBestMatch w
|}.

(** An entry whose link is a one-element array, as JSON allows. *)
Definition arrayLinkEntry : Value :=
  entry (VStr "ada") (VArr [VStr "http://img.example/ada.jpg"]).

(** The answers the route of [part_000] can give: the status and, with it,
    the shape of the body. *)
Definition part000_answer (res : Part000.Response) : Prop :=
  (Part000.statusCode res = 200 /\
   exists matches, Part000.body res = Part000.Matches true matches) \/
  (Part000.statusCode res = 400 /\
   ((exists received,
       Part000.body res = Part000.InvalidDataset "Invalid dataset format" received) \/
    Part000.body res = Part000.ClientError "Missing group_img" \/
    Part000.body res = Part000.ClientError
      "No valid face descriptors could be generated from the dataset")) \/
  (Part000.statusCode res = 500 /\
   exists error msg,
     Part000.body res = Part000.ServerError error msg /\
     (error = "Failed to load face recognition models" \/
      error = "Failed to process group image" \/
      error = "Internal server error")).

(* ================================================================== *)
(** * Properties *)

(** ** Equations of the monad *)

Lemma bind_resolved {A B} (m : M A) (k : A -> M B) a :
  result m = Resolved a ->
  bind m k = (result (k a), trace m ++ trace (k a)).
Proof.
  destruct m as [r t]; simpl; intros ->.
  unfold bind. destruct (k a); reflexivity.
Qed.

Lemma bind_rejected {A B} (m : M A) (k : A -> M B) e :
  result m = Rejected e -> bind m k = (Rejected e, trace m).
Proof. destruct m as [r t]; simpl; intros ->. reflexivity. Qed.

Lemma try_resolved {A} (m : M A) (h : JSError -> M A) a :
  result m = Resolved a -> try_catch m h = (Resolved a, trace m).
Proof. destruct m as [r t]; simpl; intros ->. reflexivity. Qed.

Lemma try_rejected {A} (m : M A) (h : JSError -> M A) e :
  result m = Rejected e ->
  try_catch m h = (result (h e), trace m ++ trace (h e)).
Proof.
  destruct m as [r t]; simpl; intros ->.
  unfold try_catch. destruct (h e); reflexivity.
Qed.

Lemma bind_ret_l {A B} (a : A) (k : A -> M B) : bind (ret a) k = k a.
Proof. unfold bind, ret. destruct (k a); reflexivity. Qed.

Lemma count_app p (t1 t2 : Trace) : count p (t1 ++ t2) = count p t1 + count p t2.
Proof. unfold count. rewrite filter_app, length_app. reflexivity. Qed.

Lemma count_zero_app p (t1 t2 : Trace) :
  count p t1 = 0 -> count p t2 = 0 -> count p (t1 ++ t2) = 0.
Proof. intros H1 H2. rewrite count_app, H1, H2. reflexivity. Qed.

(** ** The retrying image loader *)

Section Loader.

Import WorkingApi.

Variable w : World.
Variable site : CallSite.

(** An attempt settles one way or the other, and costs one [fetch]. *)
Lemma attemptLoad_fetches_once url a :
  count is_fetch (trace (attemptLoad w site url a)) = 1.
Proof.
  unfold attemptLoad, await, emit, throw, ret, bind.
  destruct (fetch w site url a) as [r | e]; simpl; [| reflexivity].
  destruct (ok r); simpl; [| reflexivity].
  destruct (buffer r) as [b | e]; simpl; [| reflexivity].
  destruct (canvas_loadImage w b); reflexivity.
Qed.

(** An attempt succeeds exactly when the fetch resolves with a 2xx status,
    the body arrives and the bytes decode. *)
Lemma attemptLoad_resolved url a img :
  result (attemptLoad w site url a) = Resolved img <->
  exists r b, fetch w site url a = Resolved r /\ ok r = true /\
              buffer r = Resolved b /\ canvas_loadImage w b = Resolved img.
Proof.
  unfold attemptLoad, await, emit, throw, ret, bind, result.
  split.
  - destruct (fetch w site url a) as [r | e]; simpl; [| discriminate].
    destruct (ok r) eqn:Hok; simpl; [| discriminate].
    destruct (buffer r) as [b | e] eqn:Hb; simpl; [| discriminate].
    destruct (canvas_loadImage w b) eqn:Hd; simpl; [| discriminate].
    intros [= <-]. exists r, b. auto.
  - intros (r & b & -> & Hok & Hb & Hd); simpl.
    rewrite Hok; simpl. rewrite Hb; simpl. rewrite Hd. reflexivity.
Qed.

Variable url : string.
Variable retries : nat.

Let failure_line (attempt : nat) : string :=
  "Attempt " +++ nat_to_string attempt +++ "/" +++ nat_to_string retries
    +++ " failed for URL " +++ url +++ ":".

Let final_error (last : JSError) : JSError :=
  Error ("Failed to load image after " +++ nat_to_string retries
           +++ " attempts: " +++ message last).

Lemma retryLoop_success remaining img :
  result (attemptLoad w site (VStr url) (retries - remaining)) = Resolved img ->
  retryLoop w site (VStr url) retries (S remaining)
  = (Resolved (Some img), trace (attemptLoad w site (VStr url) (retries - remaining))).
Proof.
  intros H. simpl.
  erewrite try_resolved.
  - rewrite (bind_resolved _ _ _ H). simpl. rewrite app_nil_r. reflexivity.
  - rewrite (bind_resolved _ _ _ H). reflexivity.
Qed.

Lemma retryLoop_last_failure remaining e :
  result (attemptLoad w site (VStr url) (retries - remaining)) = Rejected e ->
  retries - remaining = retries ->
  retryLoop w site (VStr url) retries (S remaining)
  = (Rejected (final_error e),
     trace (attemptLoad w site (VStr url) (retries - remaining))
       ++ [EvConsoleError (failure_line retries) (message e)]).
Proof.
  intros H Hlast. simpl.
  erewrite try_rejected by (rewrite (bind_rejected _ _ _ H); reflexivity).
  rewrite (bind_rejected _ _ _ H). simpl.
  rewrite Hlast, Nat.eqb_refl. reflexivity.
Qed.

Lemma retryLoop_retry remaining e :
  result (attemptLoad w site (VStr url) (retries - remaining)) = Rejected e ->
  retries - remaining <> retries ->
  retryLoop w site (VStr url) retries (S remaining)
  = (result (retryLoop w site (VStr url) retries remaining),
     trace (attemptLoad w site (VStr url) (retries - remaining))
       ++ EvConsoleError (failure_line (retries - remaining)) (message e)
       :: EvDelay (RETRY_DELAY * (retries - remaining))
       :: trace (retryLoop w site (VStr url) retries remaining)).
Proof.
  intros H Hmore. simpl.
  erewrite try_rejected by (rewrite (bind_rejected _ _ _ H); reflexivity).
  rewrite (bind_rejected _ _ _ H). simpl.
  apply Nat.eqb_neq in Hmore. rewrite Hmore.
  destruct (retryLoop w site (VStr url) retries remaining); reflexivity.
Qed.

(** The loop never makes more fetches than it has iterations left. *)
Lemma retryLoop_fetch_bound (u : Value) remaining :
  count is_fetch (trace (retryLoop w site u retries remaining)) <= remaining.
Proof.
  induction remaining as [| r IH]; simpl; [auto |].
  pose proof (attemptLoad_fetches_once u (retries - r)) as H1.
  destruct (attemptLoad w site u (retries - r)) as [[img | e] t] eqn:Ha;
    simpl in *.
  - rewrite app_nil_r, H1. lia.
  - unfold orTypeError. destruct (ToString w u) as [shown |]; simpl.
    + destruct (retries - r =? retries); simpl.
      * rewrite count_app, H1. unfold count; simpl. lia.
      * destruct (retryLoop w site u retries r) as [res t'] eqn:Hr; simpl in *.
        rewrite count_app, H1. unfold count in *; simpl. lia.
    + rewrite count_app, H1. unfold count; simpl. lia.
Qed.

(** The first attempt that succeeds ends the loop: the image is returned and
    nothing is fetched after it. [first] counts the attempts from the one the
    loop is at. *)
Lemma retryLoop_first_success : forall remaining first img,
  remaining <= retries ->
  first < remaining ->
  (forall j, j < first ->
     exists e, result (attemptLoad w site (VStr url) (retries - remaining + 1 + j))
               = Rejected e) ->
  result (attemptLoad w site (VStr url) (retries - remaining + 1 + first))
  = Resolved img ->
  result (retryLoop w site (VStr url) retries remaining) = Resolved (Some img) /\
  count is_fetch (trace (retryLoop w site (VStr url) retries remaining)) = S first.
Proof.
  induction remaining as [| r IH]; intros first img Hle Hlt Hfail Hok; [lia |].
  destruct first as [| first].
  - replace (retries - S r + 1 + 0) with (retries - r) in Hok by lia.
    rewrite (retryLoop_success _ _ Hok). simpl.
    split; [reflexivity | apply attemptLoad_fetches_once].
  - destruct (Hfail 0 ltac:(lia)) as [e He].
    replace (retries - S r + 1 + 0) with (retries - r) in He by lia.
    rewrite (retryLoop_retry _ _ He) by lia. simpl.
    destruct (IH first img) as [Hres Hcount]; try lia.
    + intros j Hj. destruct (Hfail (S j) ltac:(lia)) as [e' He'].
      exists e'. rewrite <- He'. f_equal. f_equal. lia.
    + rewrite <- Hok. f_equal. f_equal. lia.
    + split; [exact Hres |].
      rewrite count_app, attemptLoad_fetches_once.
      unfold count in *. cbn [filter is_fetch]. rewrite Hcount. reflexivity.
Qed.

(** When every remaining attempt fails, all of them are made, and the error
    of the last one is wrapped. *)
Lemma retryLoop_all_fail : forall remaining,
  1 <= remaining <= retries ->
  (forall j, j < remaining ->
     exists e, result (attemptLoad w site (VStr url) (retries - remaining + 1 + j))
               = Rejected e) ->
  (exists last,
     result (attemptLoad w site (VStr url) retries) = Rejected last /\
     result (retryLoop w site (VStr url) retries remaining)
     = Rejected (final_error last)) /\
  count is_fetch (trace (retryLoop w site (VStr url) retries remaining)) = remaining.
Proof.
  induction remaining as [| r IH]; intros Hr Hfail; [lia |].
  destruct (Hfail 0 ltac:(lia)) as [e He].
  replace (retries - S r + 1 + 0) with (retries - r) in He by lia.
  destruct r as [| r].
  - rewrite (retryLoop_last_failure _ _ He) by lia. simpl.
    split.
    + exists e. rewrite Nat.sub_0_r in He. auto.
    + rewrite count_app, attemptLoad_fetches_once. reflexivity.
  - rewrite (retryLoop_retry _ _ He) by lia.
    destruct IH as [Hlast Hcount]; try lia.
    + intros j Hj. destruct (Hfail (S j) ltac:(lia)) as [e' He'].
      exists e'. rewrite <- He'. f_equal. f_equal. lia.
    + split; [exact Hlast |].
      cbn [trace snd]. rewrite count_app, attemptLoad_fetches_once.
      unfold count in *. cbn [filter is_fetch]. cbn [trace snd] in Hcount.
      rewrite Hcount. reflexivity.
Qed.

(** A rejection of the loop is always the wrapped error of attempt number
    [retries], logged with the URL just before. *)
Lemma retryLoop_rejection : forall remaining e,
  remaining <= retries ->
  result (retryLoop w site (VStr url) retries remaining) = Rejected e ->
  exists last,
    result (attemptLoad w site (VStr url) retries) = Rejected last /\
    e = final_error last /\
    In (EvConsoleError (failure_line retries) (message last))
       (trace (retryLoop w site (VStr url) retries remaining)).
Proof.
  induction remaining as [| r IH]; intros e Hle Hrej; [discriminate |].
  destruct (result (attemptLoad w site (VStr url) (retries - r))) as [img | e0] eqn:Ha.
  - rewrite (retryLoop_success _ _ Ha) in Hrej. discriminate.
  - destruct (Nat.eq_dec (retries - r) retries) as [Hlast | Hmore].
    + rewrite (retryLoop_last_failure _ _ Ha Hlast) in *. simpl in Hrej.
      injection Hrej as <-. exists e0. rewrite Hlast in Ha.
      repeat split; auto. cbn [trace snd]. apply in_or_app. right. left. reflexivity.
    + rewrite (retryLoop_retry _ _ Ha Hmore) in *. cbn [result fst] in Hrej.
      destruct (IH e ltac:(lia) Hrej) as (last & H1 & H2 & H3).
      exists last. repeat split; auto.
      cbn [trace snd]. apply in_or_app. right. right. right. exact H3.
Qed.

End Loader.

(** C4. For every URL, [loadImageWithRetry] makes at most [MAX_RETRIES] (3)
    fetch attempts. If attempt [k] of the first three is the first to succeed
    (the fetch is ok and the bytes decode), the image is returned after
    exactly [k] fetches; in particular two failures followed by a success
    return the image on the third attempt. If all three attempts fail,
    exactly three fetches are made and the call then raises the error that
    wraps the last failure. *)
Theorem loadImageWithRetry_attempts (w : World) (site : CallSite) (url : string) :
  let run := WorkingApi.loadImageWithRetry w site (VStr url) WorkingApi.MAX_RETRIES in
  let attempt k := result (WorkingApi.attemptLoad w site (VStr url) k) in
  count is_fetch (trace run) <= WorkingApi.MAX_RETRIES /\
  (forall k img,
      1 <= k <= WorkingApi.MAX_RETRIES ->
      (forall j, 1 <= j < k -> exists e, attempt j = Rejected e) ->
      attempt k = Resolved img ->
      result run = Resolved (Some img) /\ count is_fetch (trace run) = k) /\
  (forall e1 e2 img,
      attempt 1 = Rejected e1 -> attempt 2 = Rejected e2 -> attempt 3 = Resolved img ->
      result run = Resolved (Some img) /\ count is_fetch (trace run) = 3) /\
  ((forall j, 1 <= j <= WorkingApi.MAX_RETRIES -> exists e, attempt j = Rejected e) ->
   count is_fetch (trace run) = WorkingApi.MAX_RETRIES /\
   exists last,
     attempt WorkingApi.MAX_RETRIES = Rejected last /\
     result run
     = Rejected (Error ("Failed to load image after 3 attempts: " +++ message last))).
Proof.
  intros run attempt. unfold WorkingApi.MAX_RETRIES in *.
  assert (Hfirst : forall k img,
      1 <= k <= 3 ->
      (forall j, 1 <= j < k -> exists e, attempt j = Rejected e) ->
      attempt k = Resolved img ->
      result run = Resolved (Some img) /\ count is_fetch (trace run) = k).
  { intros k img Hk Hfail Hok.
    destruct (retryLoop_first_success w site url 3 3 (k - 1) img) as [H1 H2];
      try lia.
    - intros j Hj. destruct (Hfail (S j) ltac:(lia)) as [e He].
      exists e. rewrite <- He. reflexivity.
    - rewrite <- Hok. unfold attempt. f_equal. f_equal. lia.
    - split; [exact H1 |]. unfold run, WorkingApi.loadImageWithRetry. rewrite H2. lia. }
  split; [apply retryLoop_fetch_bound |].
  split; [exact Hfirst |].
  split.
  - intros e1 e2 img H1 H2 H3. apply Hfirst; [lia | | exact H3].
    intros j Hj. assert (j = 1 \/ j = 2) as [-> | ->] by lia; eauto.
  - intros Hfail.
    destruct (retryLoop_all_fail w site url 3 3) as [(last & Hl & Hr) Hc]; try lia.
    + intros j Hj. destruct (Hfail (S j) ltac:(lia)) as [e He].
      exists e. rewrite <- He. reflexivity.
    + split; [exact Hc |]. exists last. split; [exact Hl | exact Hr].
Qed.

(** On [flakyWorld] the first two attempts are answered 404 and the third one
    succeeds; on [deadWorld] all three fail. *)
Lemma loadImageWithRetry_attempts_witness :
  (result (WorkingApi.loadImageWithRetry flakyWorld GroupImage
             (VStr "http://photos.example/group.jpg") 3) = Resolved (Some sampleImage) /\
   count is_fetch (trace (WorkingApi.loadImageWithRetry flakyWorld GroupImage
             (VStr "http://photos.example/group.jpg") 3)) = 3) /\
  (count is_fetch (trace (WorkingApi.loadImageWithRetry deadWorld GroupImage
             (VStr "http://photos.example/group.jpg") 3)) = 3 /\
   exists last,
     result (WorkingApi.attemptLoad deadWorld GroupImage
               (VStr "http://photos.example/group.jpg") 3) = Rejected last /\
     result (WorkingApi.loadImageWithRetry deadWorld GroupImage
               (VStr "http://photos.example/group.jpg") 3)
     = Rejected (Error ("Failed to load image after 3 attempts: " +++ message last))).
Proof.
  split.
  - apply (proj1 (proj2 (proj2
      (loadImageWithRetry_attempts flakyWorld GroupImage "http://photos.example/group.jpg")))
      (Error "HTTP error! status: 404") (Error "HTTP error! status: 404") sampleImage);
      reflexivity.
  - apply (proj2 (proj2 (proj2
      (loadImageWithRetry_attempts deadWorld GroupImage "http://photos.example/group.jpg")))).
    intros j _. exists (Error "HTTP error! status: 404"). reflexivity.
Defined.

(** ** What the raised error carries *)

Lemma prefix_refl s : String.prefix s s = true.
Proof.
  induction s as [| c s IH]; simpl; [reflexivity |].
  destruct (ascii_dec c c); [exact IH | congruence].
Qed.

Lemma includes_append_r a b : includes (a +++ b) b = true.
Proof.
  induction a as [| c a IH].
  - destruct b; simpl; [reflexivity |].
    destruct (ascii_dec a a); [| congruence]. rewrite prefix_refl. reflexivity.
  - simpl. rewrite IH. apply orb_true_r.
Qed.

Lemma includes_append_skip a b c : includes b c = true -> includes (a +++ b) c = true.
Proof.
  intros H. induction a as [| x a IH]; [exact H |].
  simpl. rewrite IH. apply orb_true_r.
Qed.

Lemma includes_append_l a b c : includes a c = true -> includes (a +++ b) c = true.
Proof.
  revert c. induction a as [| x a IH]; intros c.
  - destruct c; simpl; [destruct b; reflexivity | discriminate].
  - intros H. simpl in H. apply orb_true_iff in H as [H | H].
    + assert (Hp : forall p s t, String.prefix p s = true -> String.prefix p (s +++ t) = true).
      { clear. induction p as [| y p IHp]; intros s t;
          [intros _; destruct (s +++ t); reflexivity |].
        destruct s as [| z s]; simpl; [discriminate |].
        destruct (ascii_dec y z); [apply IHp | discriminate]. }
      pose proof (Hp c (String x a) b H) as Hq.
      change (String x a +++ b) with (String x (a +++ b)) in *.
      cbn [includes]. rewrite Hq. reflexivity.
    + change (String x a +++ b) with (String x (a +++ b)).
      cbn [includes]. rewrite (IH _ H). apply orb_true_r.
Qed.

Lemma includes_skip_foreign (a b : string) (c : ascii) (u : string) :
  ~ In c (list_ascii_of_string a) ->
  includes (a +++ b) (String c u) = includes b (String c u).
Proof.
  induction a as [| x a IH]; intros Hforeign; [reflexivity |].
  cbn [String.append includes String.prefix].
  destruct (ascii_dec c x) as [-> | _]; [destruct Hforeign; left; reflexivity |].
  apply IH. intros Hin. apply Hforeign. right. exact Hin.
Qed.

Lemma uint_digits_only (d : Decimal.uint) (c : ascii) :
  In c (list_ascii_of_string (NilEmpty.string_of_uint d)) -> is_digit c = true.
Proof.
  induction d; cbn [NilEmpty.string_of_uint list_ascii_of_string In];
    try (intros [<- | Hin]; [reflexivity | auto]).
  intros [].
Qed.

Lemma nat_to_string_digits_only (n : nat) (c : ascii) :
  In c (list_ascii_of_string (nat_to_string n)) -> is_digit c = true.
Proof.
  unfold nat_to_string, NilZero.string_of_uint.
  destruct (Nat.to_uint n) eqn:Hn; try (rewrite <- Hn; apply uint_digits_only).
  intros [<- | []]. reflexivity.
Qed.

(** C5, as the code has it. When [loadImageWithRetry] exhausts its attempts
    for a URL, the error it raises is
    ["Failed to load image after <retries> attempts: <message>"], where
    [<message>] is the message of the last underlying error: it carries the
    retry count and that message, and nothing else. The function itself
    writes the URL to the console only, in the line logged for the last
    failed attempt; so the raised error mentions an http(s) URL exactly when
    the last underlying message already does. *)
Theorem loadImageWithRetry_error (w : World) (site : CallSite) (url : string)
    (retries : nat) (e : JSError) :
  result (WorkingApi.loadImageWithRetry w site (VStr url) retries) = Rejected e ->
  exists last,
    result (WorkingApi.attemptLoad w site (VStr url) retries) = Rejected last /\
    e = Error ("Failed to load image after " +++ nat_to_string retries
                 +++ " attempts: " +++ message last) /\
    includes (message e) (message last) = true /\
    (String.prefix "http" url = true ->
     includes (message e) url = includes (message last) url) /\
    exists line,
      In (EvConsoleError line (message last))
         (trace (WorkingApi.loadImageWithRetry w site (VStr url) retries)) /\
      includes line url = true.
Proof.
  intros Hrej.
  destruct (retryLoop_rejection w site url retries retries e (le_n _) Hrej)
    as (last & Hlast & -> & Hin).
  exists last. split; [exact Hlast |]. split; [reflexivity |]. split; [| split].
  - cbn [message Error].
    do 2 apply includes_append_skip. apply includes_append_r.
  - intros Hhttp. cbn [message Error].
    destruct url as [| c u]; [discriminate |].
    assert (Hc : c = "h"%char).
    { cbn [String.prefix] in Hhttp. destruct (ascii_dec "h" c); congruence. }
    subst c.
    rewrite includes_skip_foreign.
    2:{ cbn. intros H. repeat destruct H as [H | H]; try discriminate H. exact H. }
    rewrite includes_skip_foreign.
    2:{ intros H. apply nat_to_string_digits_only in H. discriminate H. }
    apply includes_skip_foreign.
    cbn. intros H. repeat destruct H as [H | H]; try discriminate H. exact H.
  - eexists. split; [exact Hin |].
    do 5 apply includes_append_skip.
    apply includes_append_l. exact (includes_append_r "" url).
Qed.

(** With every attempt answered 404 the raised error does not name the URL;
    with every connection refused it does, because the message of node-fetch
    does. *)
Lemma loadImageWithRetry_error_witness :
  (exists last,
     result (WorkingApi.attemptLoad deadWorld GroupImage
               (VStr "http://photos.example/group.jpg") 3) = Rejected last /\
     Error "Failed to load image after 3 attempts: HTTP error! status: 404"
     = Error ("Failed to load image after " +++ nat_to_string 3
                +++ " attempts: " +++ message last) /\
     includes "Failed to load image after 3 attempts: HTTP error! status: 404"
       (message last) = true /\
     (String.prefix "http" "http://photos.example/group.jpg" = true ->
      includes "Failed to load image after 3 attempts: HTTP error! status: 404"
        "http://photos.example/group.jpg"
      = includes (message last) "http://photos.example/group.jpg") /\
     exists line,
       In (EvConsoleError line (message last))
          (trace (WorkingApi.loadImageWithRetry deadWorld GroupImage
                    (VStr "http://photos.example/group.jpg") 3)) /\
       includes line "http://photos.example/group.jpg" = true) /\
  (exists e,
     result (WorkingApi.loadImageWithRetry refusedWorld GroupImage
               (VStr "http://photos.example/group.jpg") 3) = Rejected e /\
     includes (message e) "http://photos.example/group.jpg" = true).
Proof.
  split.
  - apply (loadImageWithRetry_error deadWorld GroupImage "http://photos.example/group.jpg" 3
             (Error "Failed to load image after 3 attempts: HTTP error! status: 404")).
    reflexivity.
  - eexists. split; [reflexivity |].
    destruct (loadImageWithRetry_error refusedWorld GroupImage
                "http://photos.example/group.jpg" 3 _ eq_refl)
      as (last & Hlast & _ & _ & Hsame & _).
    rewrite (Hsame eq_refl).
    injection Hlast as <-. reflexivity.
Defined.

(** C5 as stated fails: with every attempt answered 404, the raised error
    carries the last message but not the URL. *)
Lemma loadImageWithRetry_error_omits_url :
  exists e,
    result (WorkingApi.loadImageWithRetry deadWorld GroupImage
              (VStr "http://photos.example/group.jpg") WorkingApi.MAX_RETRIES)
    = Rejected e /\
    includes (message e) "HTTP error! status: 404" = true /\
    includes (message e) "http://photos.example/group.jpg" = false /\
    includes (name e) "http://photos.example/group.jpg" = false.
Proof.
  exists (Error "Failed to load image after 3 attempts: HTTP error! status: 404").
  repeat split; vm_compute; reflexivity.
Qed.

(** ** Results and traces of composite computations *)

Lemma result_bind {A B} (m : M A) (k : A -> M B) :
  result (bind m k)
  = match result m with Resolved a => result (k a) | Rejected e => Rejected e end.
Proof. destruct m as [[a | e] t]; simpl; [destruct (k a) |]; reflexivity. Qed.

Lemma trace_bind {A B} (m : M A) (k : A -> M B) :
  trace (bind m k)
  = trace m ++ match result m with Resolved a => trace (k a) | Rejected _ => [] end.
Proof.
  destruct m as [[a | e] t]; simpl; [destruct (k a); reflexivity |].
  rewrite app_nil_r. reflexivity.
Qed.

Lemma result_try {A} (m : M A) (h : JSError -> M A) :
  result (try_catch m h)
  = match result m with Resolved a => Resolved a | Rejected e => result (h e) end.
Proof. destruct m as [[a | e] t]; simpl; [| destruct (h e)]; reflexivity. Qed.

Lemma trace_try {A} (m : M A) (h : JSError -> M A) :
  trace (try_catch m h)
  = trace m ++ match result m with Resolved _ => [] | Rejected e => trace (h e) end.
Proof.
  destruct m as [[a | e] t]; simpl; [| destruct (h e); reflexivity].
  rewrite app_nil_r. reflexivity.
Qed.

Lemma trace_Promise_all {A} (ps : list (M A)) :
  trace (Promise_all ps) = flat_map trace ps.
Proof.
  induction ps as [| p ps IH]; [reflexivity |].
  simpl. destruct (Promise_all ps) as [rs ts]. simpl in *. rewrite IH. reflexivity.
Qed.

(** [Promise.all] resolves when every element does, with the values in
    order. *)
Lemma Promise_all_resolved {A} (ps : list (M A)) (vs : list A) :
  Forall2 (fun p v => result p = Resolved v) ps vs ->
  result (Promise_all ps) = Resolved vs.
Proof.
  induction 1 as [| p v ps vs Hp _ IH]; [reflexivity |].
  simpl. destruct (Promise_all ps) as [rs ts]. simpl in *.
  unfold result in Hp. rewrite Hp, IH. reflexivity.
Qed.

(** One rejected element rejects the whole. *)
Lemma Promise_all_rejected {A} (ps : list (M A)) (p : M A) e :
  In p ps -> result p = Rejected e -> exists e', result (Promise_all ps) = Rejected e'.
Proof.
  induction ps as [| q ps IH]; intros Hin Hp; [destruct Hin |].
  simpl. destruct (Promise_all ps) as [rs ts] eqn:Hall.
  destruct Hin as [-> | Hin].
  - unfold result in Hp. rewrite Hp. eexists; reflexivity.
  - destruct (IH Hin Hp) as [e' He']. simpl in He'. subst rs.
    destruct (fst q); eexists; reflexivity.
Qed.

(** ** Silence is compositional *)

Lemma silent_ret p {A} (a : A) : silent p (ret a).
Proof. reflexivity. Qed.

Lemma silent_throw p {A} e : silent p (@throw A e).
Proof. reflexivity. Qed.

Lemma silent_await p {A} (s : Settled A) : silent p (await s).
Proof. reflexivity. Qed.

Lemma silent_emit p ev : p ev = false -> silent p (emit ev).
Proof. intros H. unfold silent, count. simpl. rewrite H. reflexivity. Qed.

Lemma silent_orTypeError p {A} w v (o : option A) : silent p (orTypeError w v o).
Proof. destruct o; reflexivity. Qed.

Lemma silent_bind p {A B} (m : M A) (k : A -> M B) :
  silent p m -> (forall a, silent p (k a)) -> silent p (bind m k).
Proof.
  unfold silent. intros Hm Hk. rewrite trace_bind.
  apply count_zero_app; [exact Hm |]. destruct (result m); [apply Hk | reflexivity].
Qed.

Lemma silent_try p {A} (m : M A) (h : JSError -> M A) :
  silent p m -> (forall e, silent p (h e)) -> silent p (try_catch m h).
Proof.
  unfold silent. intros Hm Hh. rewrite trace_try.
  apply count_zero_app; [exact Hm |]. destruct (result m); [reflexivity | apply Hh].
Qed.

Lemma silent_Promise_all p {A} (ps : list (M A)) :
  Forall (silent p) ps -> silent p (Promise_all ps).
Proof.
  unfold silent. rewrite trace_Promise_all.
  induction 1 as [| q ps Hq _ IH]; [reflexivity |].
  simpl. apply count_zero_app; assumption.
Qed.

Lemma silent_mapi p {A B} (f : nat -> A -> M B) (l : list A) :
  (forall i a, silent p (f i a)) ->
  forall i, Forall (silent p) (mapi_from f i l).
Proof.
  intros Hf. induction l as [| a l IH]; intros i; simpl; constructor; auto.
Qed.

Create HintDb silence.

(** Chains of binds, branches and handlers are discharged piece by piece;
    what is left is looked up among the facts already proved. *)
Ltac silence :=
  unfold console_log, console_warn, console_error, console_inspect, destructure,
    WorkingApi.delay;
  repeat first
    [ solve [auto with silence nocore]
    | apply silent_ret | apply silent_throw | apply silent_await
    | apply silent_orTypeError
    | apply silent_emit; reflexivity
    | apply silent_bind; [| intros ?]
    | apply silent_try; [| intros ?]
    | progress cbv zeta
    | match goal with
      | |- silent _ (if ?b then _ else _) => destruct b
      | |- silent _ (match ?x with _ => _ end) => destruct x
      | |- silent _ (let (_, _) := ?x in _) => destruct x
      end ];
  auto with silence.

Section Silence.

Import WorkingApi.

Variable w : World.

Lemma attemptLoad_no_load site url a : silent is_load (attemptLoad w site url a).
Proof. unfold attemptLoad. silence. Qed.

Lemma attemptLoad_no_detect site url a : silent is_detect (attemptLoad w site url a).
Proof. unfold attemptLoad. silence. Qed.

Hint Resolve attemptLoad_no_load attemptLoad_no_detect : silence.

Lemma retryLoop_no_load site url retries remaining :
  silent is_load (retryLoop w site url retries remaining).
Proof. induction remaining as [| r IH]; cbn [retryLoop]; silence. Qed.

Lemma retryLoop_no_detect site url retries remaining :
  silent is_detect (retryLoop w site url retries remaining).
Proof. induction remaining as [| r IH]; cbn [retryLoop]; silence. Qed.

Lemma validateDatasetEntry_silent p entry : silent p (validateDatasetEntry w entry).
Proof. unfold validateDatasetEntry. silence. Qed.

Hint Resolve retryLoop_no_load retryLoop_no_detect validateDatasetEntry_silent : silence.

Lemma processSingleFace_no_load index data :
  silent is_load (processSingleFace w index data).
Proof. unfold processSingleFace, loadImageWithRetry. silence. Qed.

Lemma loadLabeledImages_no_load dataset :
  silent is_load (loadLabeledImages w dataset).
Proof.
  unfold loadLabeledImages. silence.
  apply silent_Promise_all, silent_mapi. intros. apply processSingleFace_no_load.
Qed.

Hint Resolve loadLabeledImages_no_load : silence.

Lemma recognise_no_load dataset group_img :
  silent is_load (recognise w dataset group_img).
Proof. unfold recognise, loadImageWithRetry. silence. Qed.

End Silence.

(** ** The route of [working_api.js] *)

Section Route.

Import WorkingApi.

Variable w : World.

(** The code's two input tests are the specification's validity of the
    request. *)
Lemma dataset_test dataset :
  negb (truthy dataset) || negb (isArray dataset) || (length (items_of dataset) =? 0)
  = negb (valid_dataset dataset).
Proof. destruct dataset as [| | [] | x | s | [| v l] | props]; try reflexivity.
  simpl. destruct (_ && _); reflexivity.
  simpl. destruct (String.eqb s ""); reflexivity.
Qed.

Lemma group_img_test group_img :
  negb (truthy group_img) || negb (String.eqb (typeof group_img) "string")
  = negb (valid_group_img group_img).
Proof.
  destruct group_img as [| | [] | x | s | l | props]; try reflexivity.
  - simpl. destruct (_ && _); reflexivity.
  - simpl. rewrite orb_false_r. reflexivity.
Qed.

(** A request that passes the two tests runs the pipeline under the route's
    [catch]. *)
Lemma handler_accepts body dataset group_img :
  getProp body "dataset" = Some dataset ->
  getProp body "group_img" = Some group_img ->
  valid_dataset dataset = true ->
  valid_group_img group_img = true ->
  handler w (mkReq body)
  = try_catch (initializeModels w ;;; recognise w (items_of dataset) group_img)
      (recover w).
Proof.
  intros Hd Hg Vd Vg. unfold handler, destructure. cbn [req_body].
  rewrite Hd, Hg. unfold orTypeError. rewrite !bind_ret_l.
  rewrite dataset_test, group_img_test, Vd, Vg. reflexivity.
Qed.

(** A request that fails one of them is answered at once. *)
Lemma handler_refuses body dataset group_img :
  getProp body "dataset" = Some dataset ->
  getProp body "group_img" = Some group_img ->
  valid_dataset dataset = false \/ valid_group_img group_img = false ->
  exists error details,
    handler w (mkReq body) = (Resolved (mkRes 400 (ClientError error details)), []).
Proof.
  intros Hd Hg Hbad. unfold handler, destructure. cbn [req_body].
  rewrite Hd, Hg. unfold orTypeError. rewrite !bind_ret_l.
  rewrite dataset_test, group_img_test.
  destruct (valid_dataset dataset); cbn [negb].
  - destruct Hbad as [Hbad | Hbad]; [discriminate |]. rewrite Hbad.
    do 2 eexists. reflexivity.
  - do 2 eexists. reflexivity.
Qed.

(** [initializeModels] asks for the three nets, whatever becomes of them. *)
Lemma initializeModels_loaded :
  (forall net, loadFromDisk w net = Resolved tt) ->
  initializeModels w
  = (Resolved tt, three_loads w ++ [EvConsoleLog "Models loaded successfully"]).
Proof.
  intros H. unfold initializeModels, loadNet, await, emit, bind. simpl.
  rewrite !H. reflexivity.
Qed.

Lemma initializeModels_failed :
  (exists net e, loadFromDisk w net = Rejected e) ->
  exists cause,
    initializeModels w
    = (Rejected (Error ("Failed to load face recognition models: " +++ cause)),
       three_loads w).
Proof.
  intros (net & e & H).
  unfold initializeModels, loadNet, await, emit, bind. simpl.
  destruct (loadFromDisk w faceRecognitionNet) as [[] | e1] eqn:H1;
    destruct (loadFromDisk w faceLandmark68Net) as [[] | e2] eqn:H2;
    destruct (loadFromDisk w ssdMobilenetv1) as [[] | e3] eqn:H3;
    simpl; try (eexists; reflexivity).
  destruct net; congruence.
Qed.

Lemma initializeModels_trace :
  exists rest, trace (initializeModels w) = three_loads w ++ rest /\ count is_load rest = 0.
Proof.
  unfold initializeModels, loadNet, await, emit, bind. simpl.
  destruct (loadFromDisk w faceRecognitionNet) as [[] | e1];
    destruct (loadFromDisk w faceLandmark68Net) as [[] | e2];
    destruct (loadFromDisk w ssdMobilenetv1) as [[] | e3];
    simpl; eexists; split; try reflexivity; reflexivity.
Qed.

End Route.

(** C9. A request whose [dataset] is missing, not an array or an empty
    array, or whose [group_img] is missing or not a non-empty string, is
    answered 400 with an error body, and the route does nothing else: no net
    is loaded, nothing is fetched, no detection runs (the trace is empty). *)
Theorem invalid_request_refused (w : World) (body dataset group_img : Value) :
  getProp body "dataset" = Some dataset ->
  getProp body "group_img" = Some group_img ->
  valid_dataset dataset = false \/ valid_group_img group_img = false ->
  exists error details,
    result (WorkingApi.handler w (WorkingApi.mkReq body))
    = Resolved (WorkingApi.mkRes 400 (WorkingApi.ClientError error details)) /\
    trace (WorkingApi.handler w (WorkingApi.mkReq body)) = [].
Proof.
  intros Hd Hg Hbad.
  destruct (handler_refuses w body dataset group_img Hd Hg Hbad)
    as (error & details & H).
  exists error, details. rewrite H. split; reflexivity.
Qed.

(** A body without [dataset], and a body whose [group_img] is a number. *)
Lemma invalid_request_refused_witness :
  (exists error details,
     result (WorkingApi.handler calmWorld
               (WorkingApi.mkReq (VObj [("group_img", groupPhoto)])))
     = Resolved (WorkingApi.mkRes 400 (WorkingApi.ClientError error details)) /\
     trace (WorkingApi.handler calmWorld
              (WorkingApi.mkReq (VObj [("group_img", groupPhoto)]))) = []) /\
  (exists error details,
     result (WorkingApi.handler calmWorld
               (WorkingApi.mkReq (request (VArr [adaEntry]) (VNum 7%float))))
     = Resolved (WorkingApi.mkRes 400 (WorkingApi.ClientError error details)) /\
     trace (WorkingApi.handler calmWorld
              (WorkingApi.mkReq (request (VArr [adaEntry]) (VNum 7%float)))) = []).
Proof.
  split.
  - apply (invalid_request_refused calmWorld (VObj [("group_img", groupPhoto)])
             VUndefined groupPhoto); [reflexivity | reflexivity | left; reflexivity].
  - apply (invalid_request_refused calmWorld (request (VArr [adaEntry]) (VNum 7%float))
             (VArr [adaEntry]) (VNum 7%float));
      [reflexivity | reflexivity | right; reflexivity].
Defined.

(** C3, as the code has it. Nothing is loaded when the process starts. Every
    request that passes validation loads the three nets itself:
    [initializeModels] issues one [loadFromDisk] per net, in one
    [Promise.all], before anything else the request does, and no net is
    loaded again later in the request. When a load fails the request is
    answered 500 and nothing is fetched or detected. *)
Theorem models_loaded_by_each_request (w0 w : World) (body dataset group_img : Value) :
  getProp body "dataset" = Some dataset ->
  getProp body "group_img" = Some group_img ->
  valid_dataset dataset = true ->
  valid_group_img group_img = true ->
  count is_load (WorkingApi.startServer w0) = 0 /\
  (exists rest,
     trace (WorkingApi.handler w (WorkingApi.mkReq body)) = three_loads w ++ rest /\
     count is_load rest = 0) /\
  ((exists net e, loadFromDisk w net = Rejected e) ->
   exists cause stack,
     WorkingApi.handler w (WorkingApi.mkReq body)
     = (Resolved (WorkingApi.mkRes 500
          (WorkingApi.ServerError "Internal server error"
             ("Failed to load face recognition models: " +++ cause) stack)),
        three_loads w ++
        [EvConsoleError "Error in POST handler:"
           ("Failed to load face recognition models: " +++ cause)])).
Proof.
  intros Hd Hg Vd Vg.
  rewrite (handler_accepts w body dataset group_img Hd Hg Vd Vg).
  split; [reflexivity |]. split.
  - destruct (initializeModels_trace w) as (rest & Ht & Hrest).
    rewrite trace_try, trace_bind, Ht, <- !app_assoc.
    eexists; split; [reflexivity |].
    repeat apply count_zero_app; [exact Hrest | |].
    + destruct (result (WorkingApi.initializeModels w)); [| reflexivity].
      apply recognise_no_load.
    + destruct (result (_ ;;; _)); reflexivity.
  - intros Hfail.
    destruct (initializeModels_failed w Hfail) as (cause & Hinit).
    rewrite Hinit. do 2 eexists. reflexivity.
Qed.

Lemma models_loaded_by_each_request_witness :
  count is_load (WorkingApi.startServer calmWorld) = 0 /\
  (exists rest,
     trace (WorkingApi.handler brokenDiskWorld adaRequest)
     = three_loads brokenDiskWorld ++ rest /\
     count is_load rest = 0) /\
  (exists cause stack,
     WorkingApi.handler brokenDiskWorld adaRequest
     = (Resolved (WorkingApi.mkRes 500
          (WorkingApi.ServerError "Internal server error"
             ("Failed to load face recognition models: " +++ cause) stack)),
        three_loads brokenDiskWorld ++
        [EvConsoleError "Error in POST handler:"
           ("Failed to load face recognition models: " +++ cause)])).
Proof.
  destruct (models_loaded_by_each_request calmWorld brokenDiskWorld
              (request (VArr [adaEntry]) groupPhoto) (VArr [adaEntry]) groupPhoto
              eq_refl eq_refl eq_refl eq_refl) as (H1 & H2 & H3).
  split; [exact H1 |]. split; [exact H2 |].
  apply H3. exists faceLandmark68Net, (Error "ENOENT: no such file or directory").
  reflexivity.
Defined.

(** C3 as stated fails: a process that has served two requests has read each
    net twice, and none of the reads happened at start-up. *)
Lemma models_reloaded_by_second_request :
  count (loads_net ssdMobilenetv1) (WorkingApi.startServer calmWorld) = 0 /\
  count (loads_net ssdMobilenetv1)
    (WorkingApi.serve calmWorld [(calmWorld, adaRequest); (calmWorld, adaRequest)]) = 2 /\
  ~ models_loaded_once_at_start calmWorld
      [(calmWorld, adaRequest); (calmWorld, adaRequest)].
Proof.
  split; [reflexivity |]. split; [vm_compute; reflexivity |].
  intros H. destruct (H ssdMobilenetv1) as [_ H2].
  vm_compute in H2. discriminate.
Qed.

(** ** One dataset entry *)

Section Entries.

Import WorkingApi.

Variable w : World.

(** The callback rejects only where it is not guarded: the destructuring in
    front of its [try], and the template literal inside its [catch]. *)
Lemma processSingleFace_settles index data id :
  getProp data "id" = Some id ->
  ToString w id <> None ->
  exists r, result (processSingleFace w index data) = Resolved r.
Proof.
  intros Hid Hshow.
  assert (Himg : exists imglink, getProp data "imglink" = Some imglink).
  { destruct data; try discriminate; simpl; eauto.
    destruct (own_property "imglink" props); eauto. }
  destruct Himg as [imglink Himg].
  unfold processSingleFace, destructure. rewrite Hid, Himg.
  unfold orTypeError at 1 2. rewrite !bind_ret_l.
  rewrite result_try.
  destruct (result (validateDatasetEntry w data ;;; _)) as [r | e]; [eauto |].
  destruct (ToString w id) as [shown |]; [| congruence].
  eexists. reflexivity.
Qed.

Lemma processSingleFace_rejects_nullish index data :
  getProp data "id" = None ->
  result (processSingleFace w index data) = Rejected (TypeError (typeErrorText w data)).
Proof.
  intros H. unfold processSingleFace, destructure. rewrite H. reflexivity.
Qed.

Lemma is_DatasetEntry_id data :
  is_DatasetEntry data = true ->
  exists id, getProp data "id" = Some id /\ ToString w id <> None.
Proof.
  destruct data as [| | | | | | props]; try discriminate. simpl.
  destruct (own_property "id" props) as [[| | | x | s | |] |]; try discriminate;
    intros _; eexists; (split; [reflexivity | discriminate]).
Qed.

(** What a descriptor returned for an entry is made of: the label is
    [id.toString()], and there is one descriptor, the one detected in the
    image loaded from [imglink]. *)
Lemma processSingleFace_descriptor index data l :
  result (processSingleFace w index data) = Resolved (Some l) ->
  exists id imglink image descriptor,
    getProp data "id" = Some id /\ getProp data "imglink" = Some imglink /\
    truthy id = true /\ truthy imglink = true /\
    result (loadImageWithRetry w (ReferenceImage index) imglink MAX_RETRIES)
    = Resolved image /\
    detectSingleFace w image = Resolved (Some descriptor) /\
    toString_method w id = Some (label l) /\
    descriptors l = [descriptor].
Proof.
  unfold processSingleFace, destructure.
  destruct (getProp data "id") as [id |] eqn:Hid; [| discriminate].
  destruct (getProp data "imglink") as [imglink |] eqn:Himg; [| discriminate].
  unfold orTypeError at 1 2. rewrite !bind_ret_l.
  assert (Hcatch : forall e : JSError,
             result (shown <- orTypeError w id (ToString w id) ;;
                     console_error ("Error processing image for id " +++ shown +++ ":")
                       (message e) ;;;
                     ret (@None LabeledFaceDescriptors)) <> Resolved (Some l)).
  { intros e. rewrite result_bind. destruct (ToString w id); discriminate. }
  rewrite result_try, result_bind.
  destruct (result (validateDatasetEntry w data)) as [v | e] eqn:Hv;
    [| intros H; destruct (Hcatch _ H)].
  assert (Htruthy : truthy id = true /\ truthy imglink = true).
  { revert Hv. unfold validateDatasetEntry.
    destruct (negb (truthy data) || _); [discriminate |].
    rewrite Hid, Himg. unfold orTypeError at 1 2. rewrite !bind_ret_l.
    destruct (truthy id), (truthy imglink); try discriminate. auto. }
  rewrite result_bind.
  destruct (result (orTypeError w id (ToString w id))) as [shown | e] eqn:Hs;
    [| intros H; destruct (Hcatch _ H)].
  rewrite result_bind. cbn [console_log emit result fst]. rewrite result_bind.
  destruct (result (loadImageWithRetry w (ReferenceImage index) imglink MAX_RETRIES))
    as [image | e] eqn:Hload; [| intros H; destruct (Hcatch _ H)].
  rewrite result_bind. cbn [emit result fst]. rewrite result_bind.
  unfold await at 1. cbn [result fst].
  destruct (detectSingleFace w image) as [[descriptor |] | e] eqn:Hdet;
    try (intros H; destruct (Hcatch _ H)).
  rewrite result_bind.
  destruct (toString_method w id) as [text |] eqn:Ht; cbn [orTypeError result ret throw fst];
    [| intros H; destruct (Hcatch _ H)].
  intros [= <-]. exists id, imglink, image, descriptor. tauto.
Qed.

End Entries.

(** ** The fan-out over the dataset and the fan-in *)

Lemma nth_error_mapi_from {A B} (f : nat -> A -> B) (l : list A) :
  forall i n, nth_error (mapi_from f i l) n = option_map (f (i + n)) (nth_error l n).
Proof.
  induction l as [| a l IH]; intros i n; destruct n as [| n]; simpl; try reflexivity.
  - rewrite Nat.add_0_r. reflexivity.
  - rewrite IH. replace (S i + n) with (i + S n) by lia. reflexivity.
Qed.

Lemma Forall_mapi_from {A B} (P : B -> Prop) (f : nat -> A -> B) (l : list A) :
  forall i,
    (forall n a, nth_error l n = Some a -> P (f (i + n) a)) ->
    Forall P (mapi_from f i l).
Proof.
  induction l as [| a l IH]; intros i H; simpl; constructor.
  - specialize (H 0 a eq_refl). rewrite Nat.add_0_r in H. exact H.
  - apply IH. intros n b Hn. specialize (H (S n) b Hn).
    replace (S i + n) with (i + S n) by lia. exact H.
Qed.

Lemma Promise_all_inversion {A} (ps : list (M A)) :
  forall vs, result (Promise_all ps) = Resolved vs ->
             Forall2 (fun p v => result p = Resolved v) ps vs.
Proof.
  induction ps as [| p ps IH]; intros vs; simpl.
  - intros [= <-]. constructor.
  - destruct (Promise_all ps) as [rs ts]. simpl in *.
    destruct (fst p) as [a | e] eqn:Hp; [| discriminate].
    destruct rs as [l | e]; [| discriminate].
    intros [= <-]. constructor; [exact Hp | apply IH; reflexivity].
Qed.

Lemma Promise_all_settles {A} (ps : list (M A)) :
  Forall (fun p => exists v, result p = Resolved v) ps ->
  exists vs, result (Promise_all ps) = Resolved vs.
Proof.
  induction 1 as [| p ps [v Hv] _ [vs IH]]; [eexists; reflexivity |].
  simpl. destruct (Promise_all ps) as [rs ts]. simpl in *.
  unfold result in Hv. rewrite Hv, IH. eexists; reflexivity.
Qed.

Lemma Forall2_nth_error_l {A B} (R : A -> B -> Prop) l1 l2 :
  Forall2 R l1 l2 ->
  forall n a, nth_error l1 n = Some a -> exists b, nth_error l2 n = Some b /\ R a b.
Proof.
  induction 1 as [| x y l1 l2 Hxy _ IH]; intros n a; destruct n; simpl; try discriminate.
  - intros [= <-]. eauto.
  - apply IH.
Qed.

Lemma Forall2_nth_error_r {A B} (R : A -> B -> Prop) l1 l2 :
  Forall2 R l1 l2 ->
  forall n b, nth_error l2 n = Some b -> exists a, nth_error l1 n = Some a /\ R a b.
Proof.
  induction 1 as [| x y l1 l2 Hxy _ IH]; intros n b; destruct n; simpl; try discriminate.
  - intros [= <-]. eauto.
  - apply IH.
Qed.

Lemma filter_not_null_In {A} (vs : list (option A)) a :
  In a (filter_not_null vs) <-> In (Some a) vs.
Proof.
  induction vs as [| [b |] vs IH]; simpl; [tauto | |].
  - rewrite IH. split; intros [H | H]; auto; left; congruence.
  - rewrite IH. split; [auto | intros [H | H]; [discriminate | auto]].
Qed.

Lemma filter_not_null_all_null {A} (vs : list (option A)) :
  Forall (fun v => v = None) vs -> filter_not_null vs = [].
Proof. induction 1 as [| v vs -> _ IH]; simpl; auto. Qed.

Section FanIn.

Import WorkingApi.

Variable w : World.

Let emptyReferenceSet : JSError :=
  Error "No valid face descriptors could be generated from the dataset".

(** When every callback settles, [loadLabeledImages] returns the non-null
    results in dataset order, or fails for want of any. *)
Lemma loadLabeledImages_fan_in dataset vs :
  result (Promise_all (mapi_from (processSingleFace w) 0 dataset)) = Resolved vs ->
  result (loadLabeledImages w dataset)
  = if length (filter_not_null vs) =? 0
    then Rejected emptyReferenceSet
    else Resolved (filter_not_null vs).
Proof.
  intros H. unfold loadLabeledImages.
  rewrite result_bind. cbn [console_log emit result fst].
  rewrite result_bind, H, result_bind. cbn [emit result fst].
  destruct (length (filter_not_null vs) =? 0); reflexivity.
Qed.

Lemma loadLabeledImages_rejected dataset e :
  result (Promise_all (mapi_from (processSingleFace w) 0 dataset)) = Rejected e ->
  result (loadLabeledImages w dataset) = Rejected e.
Proof.
  intros H. unfold loadLabeledImages.
  rewrite result_bind. cbn [console_log emit result fst].
  rewrite result_bind, H. reflexivity.
Qed.

(** Every member of the reference set was produced by some entry of the
    dataset. *)
Lemma loadLabeledImages_members dataset labeled l :
  result (loadLabeledImages w dataset) = Resolved labeled ->
  In l labeled ->
  exists index data,
    nth_error dataset index = Some data /\
    result (processSingleFace w index data) = Resolved (Some l).
Proof.
  intros Hres Hin.
  destruct (result (Promise_all (mapi_from (processSingleFace w) 0 dataset)))
    as [vs | e] eqn:Hall.
  2:{ rewrite (loadLabeledImages_rejected _ _ Hall) in Hres. discriminate. }
  rewrite (loadLabeledImages_fan_in _ _ Hall) in Hres.
  destruct (length (filter_not_null vs) =? 0); [discriminate |].
  injection Hres as <-.
  apply filter_not_null_In, In_nth_error in Hin. destruct Hin as [n Hn].
  destruct (Forall2_nth_error_r _ _ _ (Promise_all_inversion _ _ Hall) n _ Hn)
    as (p & Hp & Hpr).
  rewrite nth_error_mapi_from in Hp.
  destruct (nth_error dataset n) as [data |] eqn:Hd; [| discriminate].
  injection Hp as <-. exists n, data. auto.
Qed.

(** A dataset of well-typed entries with one processable entry always gives
    a reference set, and the processable entry is in it. *)
Lemma loadLabeledImages_typed dataset index data l :
  Forall (fun e => is_DatasetEntry e = true) dataset ->
  nth_error dataset index = Some data ->
  result (processSingleFace w index data) = Resolved (Some l) ->
  exists labeled,
    result (loadLabeledImages w dataset) = Resolved labeled /\ In l labeled.
Proof.
  intros Htyped Hnth Hl.
  destruct (Promise_all_settles (mapi_from (processSingleFace w) 0 dataset))
    as [vs Hall].
  { apply Forall_mapi_from. intros n a Hn.
    destruct (is_DatasetEntry_id w a) as (id & Hid & Hshow).
    - rewrite Forall_forall in Htyped. apply Htyped. eapply nth_error_In; eauto.
    - eapply processSingleFace_settles; eauto. }
  assert (Hin : In l (filter_not_null vs)).
  { apply filter_not_null_In.
    destruct (Forall2_nth_error_l _ _ _ (Promise_all_inversion _ _ Hall) index
                (processSingleFace w index data)) as (v & Hv & Hr).
    - rewrite nth_error_mapi_from, Hnth. reflexivity.
    - rewrite Hl in Hr. injection Hr as <-. eapply nth_error_In; eauto. }
  rewrite (loadLabeledImages_fan_in _ _ Hall).
  destruct (filter_not_null vs) as [| x xs]; [destruct Hin |].
  eexists. split; [reflexivity | exact Hin].
Qed.

(** When every callback returns [null] there is no reference set. *)
Lemma loadLabeledImages_all_null dataset :
  (forall index data, nth_error dataset index = Some data ->
                      result (processSingleFace w index data) = Resolved None) ->
  result (loadLabeledImages w dataset) = Rejected emptyReferenceSet.
Proof.
  intros Hnull.
  assert (Hall : result (Promise_all (mapi_from (processSingleFace w) 0 dataset))
                 = Resolved (map (fun _ => None) dataset)).
  { apply Promise_all_resolved.
    assert (G : forall i, (forall n a, nth_error dataset n = Some a ->
                  result (processSingleFace w (i + n) a) = Resolved None) ->
                Forall2 (fun p v => result p = Resolved v)
                  (mapi_from (processSingleFace w) i dataset)
                  (map (fun _ => None) dataset)).
    { clear. induction dataset as [| a l IH]; intros i H; simpl; constructor.
      - specialize (H 0 a eq_refl). rewrite Nat.add_0_r in H. exact H.
      - apply IH. intros n b Hn. specialize (H (S n) b Hn).
        replace (S i + n) with (i + S n) by lia. exact H. }
    apply G. exact Hnull. }
  rewrite (loadLabeledImages_fan_in _ _ Hall).
  rewrite filter_not_null_all_null; [reflexivity |].
  apply Forall_forall. intros v Hv. apply in_map_iff in Hv. destruct Hv as (? & <- & _).
  reflexivity.
Qed.

(** An entry that is [null] or [undefined] takes the whole dataset with it. *)
Lemma loadLabeledImages_nullish_entry dataset index data :
  nth_error dataset index = Some data ->
  getProp data "id" = None ->
  exists e, result (loadLabeledImages w dataset) = Rejected e.
Proof.
  intros Hnth Hnull.
  destruct (Promise_all_rejected (mapi_from (processSingleFace w) 0 dataset)
              (processSingleFace w index data)
              (TypeError (typeErrorText w data))) as [e He].
  - apply nth_error_In with (n := index). rewrite nth_error_mapi_from, Hnth. reflexivity.
  - apply processSingleFace_rejects_nullish. exact Hnull.
  - exists e. apply loadLabeledImages_rejected. exact He.
Qed.

End FanIn.

(** ** The outcomes of the route *)

Section Outcomes.

Import WorkingApi.

Variable w : World.
Variables body dataset group_img : Value.

Hypothesis Hdataset : getProp body "dataset" = Some dataset.
Hypothesis Hgroup : getProp body "group_img" = Some group_img.
Hypothesis Vdataset : valid_dataset dataset = true.
Hypothesis Vgroup : valid_group_img group_img = true.
Hypothesis Hmodels : forall net, loadFromDisk w net = Resolved tt.

(** With the models in, the response is decided by the reference set, the
    loading of the group photo and the faces detected in it, in that order. *)
Lemma handler_outcome :
  result (handler w (mkReq body))
  = match result (loadLabeledImages w (items_of dataset)) with
    | Rejected e => result (recover w e)
    | Resolved labeled =>
        match result (loadImageWithRetry w GroupImage group_img MAX_RETRIES) with
        | Rejected e => result (recover w e)
        | Resolved image =>
            match detectAllFaces w image with
            | Rejected e => result (recover w e)
            | Resolved [] =>
                Resolved (mkRes 400 (ClientError "No faces detected in group image" None))
            | Resolved detections =>
                Resolved (mkRes 200 (Matches true (length detections)
                  (map (matchEntry w)
                     (map (findBestMatch w labeled FACE_MATCHER_THRESHOLD) detections))))
            end
        end
    end.
Proof.
  rewrite (handler_accepts w body dataset group_img Hdataset Hgroup Vdataset Vgroup).
  rewrite result_try, result_bind, (initializeModels_loaded w Hmodels).
  cbn [result fst]. unfold recognise. rewrite result_bind.
  destruct (result (loadLabeledImages w (items_of dataset))) as [labeled | e];
    [| reflexivity].
  rewrite result_bind.
  destruct (result (loadImageWithRetry w GroupImage group_img MAX_RETRIES))
    as [image | e]; [| reflexivity].
  rewrite result_bind. cbn [emit result fst]. rewrite result_bind.
  unfold await at 1. cbn [result fst].
  destruct (detectAllFaces w image) as [[| d ds] | e]; reflexivity.
Qed.

End Outcomes.

(** C7. With the request accepted, the models loaded and a reference set
    built: when the group image loads and decodes but no face is detected in
    it, the response is 400 "No faces detected in group image"; when loading
    the image fails, or the detection on it fails, the response is 500. *)
Theorem group_image_outcomes (w : World) (body dataset group_img : Value)
    (labeled : list LabeledFaceDescriptors) :
  getProp body "dataset" = Some dataset ->
  getProp body "group_img" = Some group_img ->
  valid_dataset dataset = true ->
  valid_group_img group_img = true ->
  (forall net, loadFromDisk w net = Resolved tt) ->
  result (WorkingApi.loadLabeledImages w (items_of dataset)) = Resolved labeled ->
  let load := WorkingApi.loadImageWithRetry w GroupImage group_img WorkingApi.MAX_RETRIES in
  let response := result (WorkingApi.handler w (WorkingApi.mkReq body)) in
  (forall image,
      result load = Resolved image -> detectAllFaces w image = Resolved [] ->
      response = Resolved (WorkingApi.mkRes 400
                   (WorkingApi.ClientError "No faces detected in group image" None))) /\
  (forall e,
      result load = Rejected e ->
      response = Resolved (WorkingApi.mkRes 500
                   (WorkingApi.ServerError "Internal server error" (message e)
                      (WorkingApi.development_stack w e)))) /\
  (forall image e,
      result load = Resolved image -> detectAllFaces w image = Rejected e ->
      response = Resolved (WorkingApi.mkRes 500
                   (WorkingApi.ServerError "Internal server error" (message e)
                      (WorkingApi.development_stack w e)))).
Proof.
  intros Hd Hg Vd Vg Hm Hl load response. unfold response, load.
  rewrite (handler_outcome w body dataset group_img Hd Hg Vd Vg Hm), Hl.
  repeat split.
  - intros image -> ->. reflexivity.
  - intros e ->. reflexivity.
  - intros image e -> ->. reflexivity.
Qed.

(** An empty photo on one side, an unreachable one on the other. *)
Lemma group_image_outcomes_witness :
  result (WorkingApi.handler emptyPhotoWorld adaRequest)
  = Resolved (WorkingApi.mkRes 400
                (WorkingApi.ClientError "No faces detected in group image" None)) /\
  result (WorkingApi.handler groupUnreachableWorld adaRequest)
  = Resolved (WorkingApi.mkRes 500
                (WorkingApi.ServerError "Internal server error"
                   "Failed to load image after 3 attempts: HTTP error! status: 404" None)).
Proof.
  split.
  - apply (proj1 (group_image_outcomes emptyPhotoWorld
                    (request (VArr [adaEntry]) groupPhoto) (VArr [adaEntry]) groupPhoto
                    [mkLabeled "ada" [faceA]]
                    eq_refl eq_refl eq_refl eq_refl (fun _ => eq_refl) eq_refl)
             (Some sampleImage)); reflexivity.
  - apply (proj1 (proj2 (group_image_outcomes groupUnreachableWorld
                    (request (VArr [adaEntry]) groupPhoto) (VArr [adaEntry]) groupPhoto
                    [mkLabeled "ada" [faceA]]
                    eq_refl eq_refl eq_refl eq_refl (fun _ => eq_refl) eq_refl))
             (Error "Failed to load image after 3 attempts: HTTP error! status: 404")).
    reflexivity.
Defined.

(** C2. For a request with a non-empty dataset of well-typed entries of which
    at least one is processable, and a group image that loads and in which
    at least one face is detected, the models being loaded, the response is
    200 and [matches] holds the best match of each detected face, in
    detection order: its length is [totalFacesDetected]. *)
Theorem handler_matches_every_face (w : World) (body dataset group_img : Value)
    (index : nat) (data : Value) (l : LabeledFaceDescriptors)
    (image : option Image) (detections : list Descriptor) :
  getProp body "dataset" = Some dataset ->
  getProp body "group_img" = Some group_img ->
  valid_dataset dataset = true ->
  valid_group_img group_img = true ->
  Forall (fun e => is_DatasetEntry e = true) (items_of dataset) ->
  nth_error (items_of dataset) index = Some data ->
  result (WorkingApi.processSingleFace w index data) = Resolved (Some l) ->
  (forall net, loadFromDisk w net = Resolved tt) ->
  result (WorkingApi.loadImageWithRetry w GroupImage group_img WorkingApi.MAX_RETRIES)
  = Resolved image ->
  detectAllFaces w image = Resolved detections ->
  detections <> [] ->
  exists labeled matches,
    result (WorkingApi.loadLabeledImages w (items_of dataset)) = Resolved labeled /\
    result (WorkingApi.handler w (WorkingApi.mkReq body))
    = Resolved (WorkingApi.mkRes 200
                  (WorkingApi.Matches true (length detections) matches)) /\
    matches = map (fun d => WorkingApi.matchEntry w
                     (findBestMatch w labeled WorkingApi.FACE_MATCHER_THRESHOLD d))
                detections /\
    length matches = length detections.
Proof.
  intros Hd Hg Vd Vg Htyped Hnth Hl Hm Hload Hdet Hne.
  destruct (loadLabeledImages_typed w _ _ _ _ Htyped Hnth Hl) as (labeled & Hlab & _).
  exists labeled. eexists. split; [exact Hlab |].
  rewrite (handler_outcome w body dataset group_img Hd Hg Vd Vg Hm), Hlab, Hload, Hdet.
  destruct detections as [| d ds]; [contradiction |].
  split; [reflexivity |]. split.
  - rewrite map_map. reflexivity.
  - rewrite !length_map. reflexivity.
Qed.

Lemma handler_matches_every_face_witness :
  exists labeled matches,
    result (WorkingApi.loadLabeledImages calmWorld [adaEntry; ftpEntry]) = Resolved labeled /\
    result (WorkingApi.handler calmWorld
              (WorkingApi.mkReq (request (VArr [adaEntry; ftpEntry]) groupPhoto)))
    = Resolved (WorkingApi.mkRes 200 (WorkingApi.Matches true 2 matches)) /\
    matches = map (fun d => WorkingApi.matchEntry calmWorld
                     (findBestMatch calmWorld labeled WorkingApi.FACE_MATCHER_THRESHOLD d))
                [faceA; faceB] /\
    length matches = 2.
Proof.
  apply (handler_matches_every_face calmWorld
           (request (VArr [adaEntry; ftpEntry]) groupPhoto)
           (VArr [adaEntry; ftpEntry]) groupPhoto
           0 adaEntry (mkLabeled "ada" [faceA]) (Some sampleImage) [faceA; faceB]);
    try reflexivity.
  - repeat constructor.
  - discriminate.
Defined.

(** C1, evaluated on [working_api.js]. When the request is accepted, the
    models load and every dataset entry ends in [null], [loadLabeledImages]
    throws and the route's [catch] turns that into a 500 "Internal server
    error" whose message is the empty-reference-set text; the claim asks for
    a 400. *)
Theorem empty_reference_set_answered_500 (w : World) (body dataset group_img : Value) :
  getProp body "dataset" = Some dataset ->
  getProp body "group_img" = Some group_img ->
  valid_dataset dataset = true ->
  valid_group_img group_img = true ->
  (forall net, loadFromDisk w net = Resolved tt) ->
  (forall index data,
      nth_error (items_of dataset) index = Some data ->
      result (WorkingApi.processSingleFace w index data) = Resolved None) ->
  result (WorkingApi.handler w (WorkingApi.mkReq body))
  = Resolved (WorkingApi.mkRes 500
      (WorkingApi.ServerError "Internal server error"
         "No valid face descriptors could be generated from the dataset"
         (WorkingApi.development_stack w
            (Error "No valid face descriptors could be generated from the dataset")))).
Proof.
  intros Hd Hg Vd Vg Hm Hnull.
  rewrite (handler_outcome w body dataset group_img Hd Hg Vd Vg Hm).
  rewrite (loadLabeledImages_all_null w _ Hnull). reflexivity.
Qed.

(** The only entry links to an image that answers 404 to every attempt. *)
Lemma empty_reference_set_answered_500_witness :
  result (WorkingApi.handler deadWorld adaRequest)
  = Resolved (WorkingApi.mkRes 500
      (WorkingApi.ServerError "Internal server error"
         "No valid face descriptors could be generated from the dataset" None)).
Proof.
  apply (empty_reference_set_answered_500 deadWorld
           (request (VArr [adaEntry]) groupPhoto) (VArr [adaEntry]) groupPhoto);
    try reflexivity.
  intros [| index] data; [intros [= <-]; reflexivity |].
  destruct index; discriminate.
Defined.

(** The same request on the server of [part_000], which tests the length of
    the reference set in the route, is answered 400. *)
Lemma part000_empty_reference_set_answered_400 :
  result (Part000.handler deadWorld
            (Part000.mkReq (request (VArr [adaEntry]) groupPhoto)))
  = Resolved (Part000.mkRes 400
      (Part000.ClientError
         "No valid face descriptors could be generated from the dataset")).
Proof. vm_compute. reflexivity. Qed.

(** A dataset of well-typed entries is processed entry by entry: each
    callback settles with a descriptor or [null], and the reference set is
    the list of descriptors, in dataset order. *)
Lemma loadLabeledImages_isolates_typed_entries (w : World) (dataset : list Value) :
  Forall (fun e => is_DatasetEntry e = true) dataset ->
  exists vs,
    Forall2 (fun p v => result p = Resolved v)
      (mapi_from (WorkingApi.processSingleFace w) 0 dataset) vs /\
    result (WorkingApi.loadLabeledImages w dataset)
    = if length (filter_not_null vs) =? 0
      then Rejected (Error "No valid face descriptors could be generated from the dataset")
      else Resolved (filter_not_null vs).
Proof.
  intros Htyped.
  destruct (Promise_all_settles (mapi_from (WorkingApi.processSingleFace w) 0 dataset))
    as [vs Hall].
  { apply Forall_mapi_from. intros n a Hn.
    destruct (is_DatasetEntry_id w a) as (id & Hid & Hshow).
    - rewrite Forall_forall in Htyped. apply Htyped. eapply nth_error_In; eauto.
    - eapply processSingleFace_settles; eauto. }
  exists vs. split; [apply Promise_all_inversion; exact Hall |].
  apply loadLabeledImages_fan_in. exact Hall.
Qed.

(** C8, evaluated at a dataset with a [null] entry in front of a usable one.
    The usable entry is processed and yields its descriptor, labelled
    ["ada"], but the callback of the [null] entry rejects at its
    destructuring, [Promise.all] rejects, no list comes out of
    [loadLabeledImages], and the request is answered 500. *)
Theorem null_entry_aborts_reference_set :
  result (WorkingApi.processSingleFace calmWorld 1 adaEntry)
  = Resolved (Some (mkLabeled "ada" [faceA])) /\
  result (WorkingApi.loadLabeledImages calmWorld [VNull; adaEntry])
  = Rejected (TypeError "Cannot destructure property 'id' of 'data' as it is null.") /\
  count is_detect (trace (WorkingApi.loadLabeledImages calmWorld [VNull; adaEntry])) = 1 /\
  result (WorkingApi.handler calmWorld
            (WorkingApi.mkReq (request (VArr [VNull; adaEntry]) groupPhoto)))
  = Resolved (WorkingApi.mkRes 500
      (WorkingApi.ServerError "Internal server error"
         "Cannot destructure property 'id' of 'data' as it is null." None)).
Proof. repeat split; vm_compute; reflexivity. Qed.

(** C10. A dataset entry whose [id] or [imglink] is falsy never yields a
    descriptor, whatever its link points to: the callback of
    [working_api.js] fetches nothing and detects nothing for it, returns
    [null] whenever the id can be printed (as every falsy id can), and no
    member of a reference set built from a dataset comes from the entry; the
    callback of [part_000] returns [null] for it without further ado. *)
Theorem falsy_entry_dropped (w : World) (index : nat) (data id imglink : Value) :
  getProp data "id" = Some id ->
  getProp data "imglink" = Some imglink ->
  truthy id = false \/ truthy imglink = false ->
  let run := WorkingApi.processSingleFace w index data in
  (forall l, result run <> Resolved (Some l)) /\
  count is_fetch (trace run) = 0 /\
  count is_detect (trace run) = 0 /\
  (ToString w id <> None -> result run = Resolved None) /\
  (truthy id = false -> result run = Resolved None) /\
  (forall dataset labeled l,
      nth_error dataset index = Some data ->
      result (WorkingApi.loadLabeledImages w dataset) = Resolved labeled ->
      In l labeled ->
      exists index' data',
        index' <> index /\ nth_error dataset index' = Some data' /\
        result (WorkingApi.processSingleFace w index' data') = Resolved (Some l)) /\
  Part000.processEntry w index data
  = (Resolved None, [EvConsoleInspect "Invalid data entry:" data]).
Proof.
  intros Hid Himg Hfalsy run.
  assert (Htest : negb (truthy id) || negb (truthy imglink) = true).
  { destruct Hfalsy as [-> | ->]; [reflexivity | apply orb_true_r]. }
  assert (Hv : exists e, WorkingApi.validateDatasetEntry w data = (Rejected e, [])).
  { unfold WorkingApi.validateDatasetEntry.
    destruct (negb (truthy data) || _); [eexists; reflexivity |].
    rewrite Hid, Himg. unfold orTypeError at 1 2. rewrite !bind_ret_l, Htest.
    eexists; reflexivity. }
  destruct Hv as [e Hv].
  assert (Hrun : run = match ToString w id with
                       | Some shown =>
                           (Resolved None,
                            [EvConsoleError ("Error processing image for id " +++ shown +++ ":")
                               (message e)])
                       | None => (Rejected (TypeError (typeErrorText w id)), [])
                       end).
  { unfold run, WorkingApi.processSingleFace, destructure.
    rewrite Hid, Himg. unfold orTypeError at 1 2. rewrite !bind_ret_l, Hv.
    destruct (ToString w id); reflexivity. }
  assert (Hnever : forall l, result run <> Resolved (Some l)).
  { intros l. rewrite Hrun. destruct (ToString w id); discriminate. }
  split; [exact Hnever |].
  split; [rewrite Hrun; destruct (ToString w id); reflexivity |].
  split; [rewrite Hrun; destruct (ToString w id); reflexivity |].
  split; [rewrite Hrun; destruct (ToString w id); [reflexivity | congruence] |].
  split.
  - intros Hf. rewrite Hrun.
    destruct id as [| | [] | x | s | items | props]; try discriminate; reflexivity.
  - split.
    + intros dataset labeled l Hnth Hres Hin.
      destruct (loadLabeledImages_members w dataset labeled l Hres Hin)
        as (index' & data' & Hnth' & Hl).
      exists index', data'. repeat split; auto.
      intros ->. rewrite Hnth in Hnth'. injection Hnth' as <-.
      exact (Hnever l Hl).
    + unfold Part000.processEntry, destructure.
      rewrite Hid, Himg. unfold orTypeError at 1 2. rewrite !bind_ret_l, Htest.
      reflexivity.
Qed.

(** The entry with id [0] links to an image that loads and shows a face. *)
Lemma falsy_entry_dropped_witness :
  result (WorkingApi.loadImageWithRetry calmWorld (ReferenceImage 0)
            (VStr "http://img.example/zero.jpg") 3) = Resolved (Some sampleImage) /\
  detectSingleFace calmWorld (Some sampleImage) = Resolved (Some faceA) /\
  result (WorkingApi.processSingleFace calmWorld 0 zeroIdEntry) = Resolved None /\
  count is_fetch (trace (WorkingApi.processSingleFace calmWorld 0 zeroIdEntry)) = 0 /\
  Part000.processEntry calmWorld 0 zeroIdEntry
  = (Resolved None, [EvConsoleInspect "Invalid data entry:" zeroIdEntry]).
Proof.
  destruct (falsy_entry_dropped calmWorld 0 zeroIdEntry (VNum 0%float)
              (VStr "http://img.example/zero.jpg") eq_refl eq_refl
              (or_introl eq_refl)) as (_ & Hfetch & _ & _ & Hnull & _ & Hpart).
  split; [reflexivity |]. split; [reflexivity |].
  split; [apply Hnull; reflexivity |]. split; [exact Hfetch | exact Hpart].
Defined.

(** ** The confidence of a match *)

















(** ** Binary64 rounding never crosses a representable bound *)
















(** ** Distances between 0 and 1 *)



















(** A distance barely above 1: the product is about -0.001, and the
    confidence is "-0.00%". *)
Example confidence_minus_zero :
  WorkingApi.confidence
    (WorkingApi.matchEntry calmWorld (mkFaceMatch "unknown" 0x1.0000a7c5ac472p+0%float))
  = "-0.00%".
Proof. vm_compute. reflexivity. Qed.

(** ** The URL test and the validation of an entry *)

Lemma strip_prefix_spec (p s r : string) : strip_prefix p s = Some r <-> s = p +++ r.
Proof.
  revert s. induction p as [| a p IH]; intros s; simpl.
  - split; [intros [= ->] | intros ->]; reflexivity.
  - destruct s as [| b s]; [split; discriminate |].
    destruct (Ascii.eqb_spec a b) as [-> | Hne].
    + rewrite IH. split; [intros -> | intros [= ->]]; reflexivity.
    + split; [discriminate | intros [= Hab _]; congruence].
Qed.

(** The URL test of [validateDatasetEntry] accepts exactly the strings made
    of [http://] or [https://] (in lower case) followed by at least one
    character, the first of which is none of the four line terminators (LF,
    CR, U+2028, U+2029); nothing is asked of what comes after. *)
Theorem url_regex_test_language (s : string) :
  url_regex_test s = true <->
  exists rest,
    (s = "http://" +++ rest \/ s = "https://" +++ rest) /\
    rest <> "" /\ starts_with_line_terminator rest = false.
Proof.
  split.
  - unfold url_regex_test.
    destruct (strip_prefix "http" s) as [rest |] eqn:Hp; [| discriminate].
    apply strip_prefix_spec in Hp. subst s.
    destruct rest as [| x rest]; [discriminate |].
    destruct (Ascii.eqb_spec x "s") as [-> | Hx].
    + destruct (strip_prefix "://" rest) as [[| c tail] |] eqn:Hq; try discriminate.
      apply strip_prefix_spec in Hq. subst rest. intros Hc.
      exists (String c tail). split; [right; reflexivity |].
      split; [discriminate |]. apply negb_true_iff. exact Hc.
    + destruct (strip_prefix "://" (String x rest)) as [[| c tail] |] eqn:Hq;
        try discriminate.
      apply strip_prefix_spec in Hq. rewrite Hq. intros Hc.
      exists (String c tail). split; [left; reflexivity |].
      split; [discriminate |]. apply negb_true_iff. exact Hc.
  - intros (rest & Hs & Hne & Hc).
    destruct rest as [| c tail]; [contradiction |].
    destruct Hs as [-> | ->].
    + change (url_regex_test ("http://" +++ String c tail))
        with (negb (starts_with_line_terminator (String c tail))).
      rewrite Hc. reflexivity.
    + change (url_regex_test ("https://" +++ String c tail))
        with (negb (starts_with_line_terminator (String c tail))).
      rewrite Hc. reflexivity.
Qed.

(** A link whose host part begins with U+2028 is refused, as is one that
    stops after the two slashes. *)
Example url_regex_test_line_separator :
  url_regex_test ("http://" +++ line_separator +++ "img.example/ada.jpg") = false /\
  url_regex_test "https://" = false /\
  url_regex_test "https://img.example/ada.jpg" = true.
Proof. repeat split. Qed.

(** [validateDatasetEntry] does no input or output and never returns
    [false]: it returns [true] or throws. It returns [true] exactly for an
    object that owns a truthy [id] and a truthy [imglink] whose string form
    passes the URL test; the link itself need not be a string. *)
Theorem validateDatasetEntry_verdict (w : World) (entry : Value) :
  trace (WorkingApi.validateDatasetEntry w entry) = [] /\
  result (WorkingApi.validateDatasetEntry w entry) <> Resolved false /\
  (result (WorkingApi.validateDatasetEntry w entry) = Resolved true <->
   exists props id imglink text,
     entry = VObj props /\
     own_property "id" props = Some id /\ truthy id = true /\
     own_property "imglink" props = Some imglink /\ truthy imglink = true /\
     ToString w imglink = Some text /\ url_regex_test text = true).
Proof.
  remember (WorkingApi.validateDatasetEntry w entry) as verdict eqn:Hv.
  unfold WorkingApi.validateDatasetEntry in Hv.
  destruct (negb (truthy entry) || negb (String.eqb (typeof entry) "object")) eqn:Hshape.
  { subst verdict. repeat split; try discriminate.
    intros (props & _ & _ & _ & -> & _). discriminate Hshape. }
  destruct entry as [| | b | x | s | items | props];
    try discriminate Hshape;
    try (cbn [truthy typeof] in Hshape; rewrite orb_true_r in Hshape; discriminate Hshape).
  { (* an array owns neither property *)
    subst verdict. cbn. repeat split; try discriminate.
    intros (? & ? & ? & ? & ? & _); discriminate. }
  cbn [getProp] in Hv.
  destruct (own_property "id" props) as [id |] eqn:Hid;
    destruct (own_property "imglink" props) as [imglink |] eqn:Himg;
    cbv beta iota in Hv; unfold orTypeError at 1 2 in Hv; rewrite !bind_ret_l in Hv;
    cbn [truthy negb orb] in Hv; rewrite ?orb_true_r in Hv.
  2-4: (subst verdict; repeat split; try discriminate;
        intros (? & ? & ? & ? & [= <-] & ? & ? & ? & _); congruence).
  destruct (truthy id) eqn:Tid; destruct (truthy imglink) eqn:Timg; cbn [negb orb] in Hv.
  2-4: (subst verdict; repeat split; try discriminate;
        intros (? & ? & ? & ? & [= <-] & ? & ? & ? & ? & _); congruence).
  destruct (ToString w imglink) as [text |] eqn:Htext; cbn [orTypeError] in Hv.
  - rewrite bind_ret_l in Hv.
    destruct (url_regex_test text) eqn:Hurl; subst verdict;
      repeat split; try discriminate.
    + intros _. exists props, id, imglink, text. tauto.
    + intros (? & ? & ? & ? & [= <-] & ? & ? & ? & ? & ? & ?). congruence.
  - subst verdict. repeat split; try discriminate.
    intros (? & ? & ? & ? & [= <-] & ? & ? & ? & ? & ? & ?). congruence.
Qed.

(** The sample entry is accepted. *)
Lemma validateDatasetEntry_verdict_witness :
  result (WorkingApi.validateDatasetEntry calmWorld adaEntry) = Resolved true.
Proof.
  apply (proj2 (proj2 (validateDatasetEntry_verdict calmWorld adaEntry))).
  exists [("id", VStr "ada"); ("imglink", VStr "http://img.example/ada.jpg")],
    (VStr "ada"), (VStr "http://img.example/ada.jpg"), "http://img.example/ada.jpg".
  repeat split.
Defined.

(** A link that arrives as a one-element array passes, its string form being
    the URL; a link in upper case does not. *)
Example validateDatasetEntry_array_link :
  result (WorkingApi.validateDatasetEntry calmWorld arrayLinkEntry) = Resolved true /\
  result (WorkingApi.validateDatasetEntry calmWorld
            (entry (VStr "ada") (VStr "HTTP://IMG.EXAMPLE/ADA.JPG")))
  = Rejected (Error "Invalid image URL format").
Proof. split; reflexivity. Qed.

(** ** The retrying loader: waits, and where a returned image comes from *)

Lemma delays_app (t1 t2 : Trace) : delays (t1 ++ t2) = delays t1 ++ delays t2.
Proof.
  induction t1 as [| ev t1 IH]; [reflexivity |].
  destruct ev; simpl; rewrite IH; reflexivity.
Qed.

Lemma attemptLoad_no_delay (w : World) site url a :
  delays (trace (WorkingApi.attemptLoad w site url a)) = [].
Proof.
  unfold WorkingApi.attemptLoad, await, emit, throw, ret, bind.
  destruct (fetch w site url a) as [r | e]; simpl; [| reflexivity].
  destruct (ok r); simpl; [| reflexivity].
  destruct (buffer r) as [b | e]; simpl; [| reflexivity].
  destruct (canvas_loadImage w b); reflexivity.
Qed.

(** One iteration of the loop, by the outcome of its attempt. *)
Lemma retryLoop_step (w : World) site url retries r :
  WorkingApi.retryLoop w site url retries (S r)
  = let a := retries - r in
    match result (WorkingApi.attemptLoad w site url a) with
    | Resolved img => (Resolved (Some img), trace (WorkingApi.attemptLoad w site url a))
    | Rejected e =>
        match ToString w url with
        | None => (Rejected (TypeError (typeErrorText w url)),
                   trace (WorkingApi.attemptLoad w site url a))
        | Some shown =>
            let line := EvConsoleError
                          ("Attempt " +++ nat_to_string a +++ "/" +++ nat_to_string retries
                             +++ " failed for URL " +++ shown +++ ":") (message e) in
            if a =? retries
            then (Rejected (Error ("Failed to load image after " +++ nat_to_string retries
                                     +++ " attempts: " +++ message e)),
                  trace (WorkingApi.attemptLoad w site url a) ++ [line])
            else (result (WorkingApi.retryLoop w site url retries r),
                  trace (WorkingApi.attemptLoad w site url a)
                    ++ line :: EvDelay (WorkingApi.RETRY_DELAY * a)
                    :: trace (WorkingApi.retryLoop w site url retries r))
        end
    end.
Proof.
  cbn [WorkingApi.retryLoop]. cbv zeta.
  destruct (WorkingApi.attemptLoad w site url (retries - r)) as [[img | e] t]; cbn.
  - rewrite app_nil_r. reflexivity.
  - destruct (ToString w url) as [shown |]; cbn; [| rewrite app_nil_r; reflexivity].
    destruct (retries - r =? retries); cbn; [reflexivity |].
    destruct (WorkingApi.retryLoop w site url retries r); reflexivity.
Qed.

Lemma retryLoop_schedule (w : World) site url retries : forall remaining,
  remaining <= retries ->
  let t := trace (WorkingApi.retryLoop w site url retries remaining) in
  delays t = map (fun attempt => WorkingApi.RETRY_DELAY * attempt)
               (seq (retries - remaining + 1) (count is_fetch t - 1)) /\
  (1 <= remaining -> 1 <= count is_fetch t).
Proof.
  induction remaining as [| r IH]; intros Hle; [split; [reflexivity | lia] |].
  cbv zeta. rewrite retryLoop_step. cbv zeta.
  pose proof (attemptLoad_fetches_once w site url (retries - r)) as Hf.
  pose proof (attemptLoad_no_delay w site url (retries - r)) as Hd.
  destruct (result (WorkingApi.attemptLoad w site url (retries - r))) as [img | e].
  { cbn [trace snd]. rewrite Hf, Hd. split; [reflexivity | lia]. }
  destruct (ToString w url) as [shown |].
  2:{ cbn [trace snd]. rewrite Hf, Hd. split; [reflexivity | lia]. }
  destruct (retries - r =? retries) eqn:Hlast; cbn [trace snd].
  { rewrite delays_app, count_app, Hf, Hd. split; [reflexivity | unfold count; simpl; lia]. }
  apply Nat.eqb_neq in Hlast.
  destruct (IH ltac:(lia)) as [IHd IHc]. cbv zeta in IHd, IHc.
  specialize (IHc ltac:(lia)).
  rewrite delays_app, count_app, Hf, Hd.
  change (count is_fetch (?x :: EvDelay ?d :: ?t)) with (count is_fetch t).
  cbn [app delays]. rewrite IHd.
  set (c := count is_fetch (trace (WorkingApi.retryLoop w site url retries r))) in *.
  split; [| lia].
  replace (1 + c - 1) with (S (c - 1)) by lia.
  replace (retries - S r + 1) with (retries - r) by lia.
  replace (retries - r + 1) with (S (retries - r)) by lia.
  reflexivity.
Qed.

(** The waits of [loadImageWithRetry] grow linearly, not exponentially:
    between attempt [k] and attempt [k + 1] it sleeps [RETRY_DELAY * k]
    milliseconds, and it sleeps neither before the first attempt nor after
    the last one. With the default of three attempts a call sleeps 3000 ms
    at most. *)
Theorem loadImageWithRetry_backoff (w : World) (site : CallSite) (url : Value)
    (retries : nat) :
  let t := trace (WorkingApi.loadImageWithRetry w site url retries) in
  let t3 := trace (WorkingApi.loadImageWithRetry w site url WorkingApi.MAX_RETRIES) in
  delays t = map (fun attempt => WorkingApi.RETRY_DELAY * attempt)
               (seq 1 (count is_fetch t - 1)) /\
  list_sum (delays t3) <= 3000.
Proof.
  cbv zeta. unfold WorkingApi.loadImageWithRetry. split.
  - destruct (retryLoop_schedule w site url retries retries (le_n _)) as [H _].
    cbv zeta in H. rewrite H. replace (retries - retries + 1) with 1 by lia. reflexivity.
  - destruct (retryLoop_schedule w site url 3 3 (le_n _)) as [H _].
    cbv zeta in H. unfold WorkingApi.MAX_RETRIES. rewrite H.
    pose proof (retryLoop_fetch_bound w site 3 url 3) as Hb.
    destruct (count is_fetch (trace (WorkingApi.retryLoop w site url 3 3)))
      as [| [| [| [| n]]]]; cbn; lia.
Qed.

(** With every attempt answered 404, the call waits one second, then two. *)
Lemma loadImageWithRetry_backoff_witness :
  delays (trace (WorkingApi.loadImageWithRetry deadWorld GroupImage groupPhoto 3))
  = [1000; 2000] /\
  list_sum (delays (trace (WorkingApi.loadImageWithRetry deadWorld GroupImage groupPhoto
                             WorkingApi.MAX_RETRIES))) <= 3000.
Proof. exact (loadImageWithRetry_backoff deadWorld GroupImage groupPhoto 3). Defined.

Lemma retryLoop_returns (w : World) site url retries : forall remaining o,
  1 <= remaining <= retries ->
  result (WorkingApi.retryLoop w site url retries remaining) = Resolved o ->
  exists k img,
    retries - remaining + 1 <= k <= retries /\ o = Some img /\
    result (WorkingApi.attemptLoad w site url k) = Resolved img /\
    (forall j, retries - remaining + 1 <= j < k ->
               exists e, result (WorkingApi.attemptLoad w site url j) = Rejected e) /\
    count is_fetch (trace (WorkingApi.retryLoop w site url retries remaining))
    = k - (retries - remaining).
Proof.
  induction remaining as [| r IH]; intros o Hr; [lia |].
  rewrite retryLoop_step. cbv zeta.
  pose proof (attemptLoad_fetches_once w site url (retries - r)) as Hf.
  destruct (result (WorkingApi.attemptLoad w site url (retries - r))) as [img | e] eqn:Ha.
  { cbn [result fst trace snd]. intros [= <-].
    exists (retries - r), img. repeat split; try lia; auto. }
  destruct (ToString w url) as [shown |]; [| discriminate].
  destruct (retries - r =? retries) eqn:Hlast; [discriminate |].
  apply Nat.eqb_neq in Hlast. cbn [result fst trace snd]. intros Hres.
  destruct (IH o ltac:(lia) Hres) as (k & img & Hk & Ho & Hok & Hfail & Hcount).
  exists k, img. repeat split; try lia; auto.
  - intros j Hj. destruct (Nat.eq_dec j (retries - r)) as [-> | Hne]; [eauto |].
    apply Hfail. lia.
  - rewrite count_app, Hf.
    change (count is_fetch (?x :: EvDelay ?d :: ?t)) with (count is_fetch t).
    rewrite Hcount. lia.
Qed.

(** Whatever [loadImageWithRetry] returns was decoded from the answer to one
    of its attempts: with at least one attempt allowed, a call that returns
    gives the image of the first attempt that succeeded, every attempt
    before it having failed, and has fetched exactly that many times; it
    never returns [undefined]. *)
Theorem loadImageWithRetry_returns_first_success (w : World) (site : CallSite)
    (url : Value) (retries : nat) (o : option Image) :
  1 <= retries ->
  result (WorkingApi.loadImageWithRetry w site url retries) = Resolved o ->
  exists k img,
    1 <= k <= retries /\ o = Some img /\
    result (WorkingApi.attemptLoad w site url k) = Resolved img /\
    (forall j, 1 <= j < k ->
               exists e, result (WorkingApi.attemptLoad w site url j) = Rejected e) /\
    count is_fetch (trace (WorkingApi.loadImageWithRetry w site url retries)) = k.
Proof.
  intros Hpos Hres. unfold WorkingApi.loadImageWithRetry in *.
  destruct (retryLoop_returns w site url retries retries o ltac:(lia) Hres)
    as (k & img & Hk & Ho & Hok & Hfail & Hcount).
  exists k, img. repeat split; try lia; auto.
  intros j Hj. apply Hfail. lia.
Qed.

Lemma loadImageWithRetry_returns_first_success_witness :
  exists k img,
    1 <= k <= 3 /\ Some sampleImage = Some img /\
    result (WorkingApi.attemptLoad flakyWorld GroupImage groupPhoto k) = Resolved img /\
    (forall j, 1 <= j < k ->
               exists e, result (WorkingApi.attemptLoad flakyWorld GroupImage groupPhoto j)
                         = Rejected e) /\
    count is_fetch (trace (WorkingApi.loadImageWithRetry flakyWorld GroupImage groupPhoto 3))
    = k.
Proof.
  apply (loadImageWithRetry_returns_first_success flakyWorld GroupImage groupPhoto 3
           (Some sampleImage)); [lia | reflexivity].
Defined.

(** ** One entry, whatever it is *)

Lemma getProp_sibling (data : Value) (k1 k2 : string) (v : Value) :
  getProp data k1 = Some v -> exists v', getProp data k2 = Some v'.
Proof.
  destruct data; try discriminate; simpl; eauto.
  destruct (own_property k2 props); eauto.
Qed.

Lemma validateDatasetEntry_trace (w : World) (entry : Value) :
  trace (WorkingApi.validateDatasetEntry w entry) = [].
Proof.
  pose proof (validateDatasetEntry_silent w is_fetch entry) as H.
  unfold WorkingApi.validateDatasetEntry in *.
  destruct (negb (truthy entry) || _); [reflexivity |].
  destruct (getProp entry "id") as [id |]; [| reflexivity].
  destruct (getProp entry "imglink") as [imglink |]; [| reflexivity].
  unfold orTypeError at 1 2. rewrite !bind_ret_l.
  destruct (negb (truthy id) || _); [reflexivity |].
  destruct (ToString w imglink) as [text |]; [| reflexivity].
  cbn [orTypeError]. rewrite bind_ret_l.
  destruct (negb (url_regex_test text)); reflexivity.
Qed.

Lemma validateDatasetEntry_truthy_id (w : World) (data id : Value) v :
  getProp data "id" = Some id ->
  result (WorkingApi.validateDatasetEntry w data) = Resolved v ->
  truthy id = true.
Proof.
  intros Hid. unfold WorkingApi.validateDatasetEntry.
  destruct (negb (truthy data) || _); [discriminate |].
  destruct (getProp_sibling data "id" "imglink" id Hid) as [imglink Himg].
  rewrite Hid, Himg. unfold orTypeError at 1 2. rewrite !bind_ret_l.
  destruct (truthy id); [reflexivity | discriminate].
Qed.

Lemma validateDatasetEntry_never_false (w : World) (data : Value) :
  result (WorkingApi.validateDatasetEntry w data) <> Resolved false.
Proof.
  unfold WorkingApi.validateDatasetEntry.
  destruct (negb (truthy data) || _); [discriminate |].
  destruct (getProp data "id") as [id |]; [| discriminate].
  destruct (getProp data "imglink") as [imglink |]; [| discriminate].
  unfold orTypeError at 1 2. rewrite !bind_ret_l.
  destruct (negb (truthy id) || _); [discriminate |].
  destruct (ToString w imglink) as [text |]; [| discriminate].
  cbn [orTypeError]. rewrite bind_ret_l.
  destruct (negb (url_regex_test text)); discriminate.
Qed.

Lemma truthy_toString_method (w : World) (id : Value) :
  truthy id = true -> toString_method w id = ToString w id.
Proof. destruct id; try discriminate; reflexivity. Qed.

(** An entry that fails validation, for whatever reason (not an object, a
    field missing or falsy, a link that is no HTTP(S) URL), is given up at
    once: the callback logs the reason under the entry's id and returns
    [null]; nothing is fetched and no detection runs. *)
Theorem processSingleFace_invalid_entry (w : World) (index : nat) (data id : Value)
    (shown : string) (e : JSError) :
  getProp data "id" = Some id ->
  ToString w id = Some shown ->
  result (WorkingApi.validateDatasetEntry w data) = Rejected e ->
  WorkingApi.processSingleFace w index data
  = (Resolved None,
     [EvConsoleError ("Error processing image for id " +++ shown +++ ":") (message e)]).
Proof.
  intros Hid Hshown Hv.
  destruct (getProp_sibling data "id" "imglink" id Hid) as [imglink Himg].
  unfold WorkingApi.processSingleFace, destructure.
  rewrite Hid, Himg. unfold orTypeError at 1 2. rewrite !bind_ret_l.
  pose proof (validateDatasetEntry_trace w data) as Ht.
  destruct (WorkingApi.validateDatasetEntry w data) as [r t].
  cbn [result fst trace snd] in Hv, Ht. subst r t.
  cbn [bind try_catch]. rewrite Hshown. reflexivity.
Qed.

(** The entry with the [ftp://] link: no fetch, one console line. *)
Lemma processSingleFace_invalid_entry_witness :
  WorkingApi.processSingleFace calmWorld 0 ftpEntry
  = (Resolved None,
     [EvConsoleError "Error processing image for id 1:" "Invalid image URL format"]).
Proof.
  apply (processSingleFace_invalid_entry calmWorld 0 ftpEntry (VNum 1%float) "1"
           (Error "Invalid image URL format")); reflexivity.
Defined.

(** The callback of [dataset.map] returns a labelled descriptor exactly when
    the entry passes validation, its image loads within the retries and shows
    a face: the label is then the string form of the id (a number is printed
    as [Number::toString] does) and there is exactly one descriptor, the one
    detected. *)
Theorem processSingleFace_returns_iff (w : World) (index : nat) (data : Value)
    (l : LabeledFaceDescriptors) :
  result (WorkingApi.processSingleFace w index data) = Resolved (Some l) <->
  exists id imglink image descriptor,
    getProp data "id" = Some id /\ getProp data "imglink" = Some imglink /\
    result (WorkingApi.validateDatasetEntry w data) = Resolved true /\
    result (WorkingApi.loadImageWithRetry w (ReferenceImage index) imglink
              WorkingApi.MAX_RETRIES) = Resolved image /\
    detectSingleFace w image = Resolved (Some descriptor) /\
    ToString w id = Some (label l) /\ descriptors l = [descriptor].
Proof.
  split.
  - intros Hres.
    destruct (processSingleFace_descriptor w index data l Hres)
      as (id & imglink & image & descriptor & Hid & Himg & Tid & _ & Hload & Hdet
          & Hlabel & Hdesc).
    exists id, imglink, image, descriptor.
    rewrite (truthy_toString_method w id Tid) in Hlabel.
    repeat split; auto.
    destruct (result (WorkingApi.validateDatasetEntry w data)) as [[] | e] eqn:Hv.
    + reflexivity.
    + destruct (validateDatasetEntry_never_false w data Hv).
    + revert Hres. unfold WorkingApi.processSingleFace, destructure.
      rewrite Hid, Himg. unfold orTypeError at 1 2. rewrite !bind_ret_l.
      rewrite result_try, result_bind, Hv, result_bind, Hlabel. discriminate.
  - intros (id & imglink & image & descriptor & Hid & Himg & Hv & Hload & Hdet
            & Hlabel & Hdesc).
    pose proof (validateDatasetEntry_truthy_id w data id true Hid Hv) as Tid.
    unfold WorkingApi.processSingleFace, destructure.
    rewrite Hid, Himg. unfold orTypeError at 1 2. rewrite !bind_ret_l.
    rewrite result_try, result_bind, Hv, result_bind, Hlabel.
    cbn [orTypeError ret result fst]. rewrite result_bind.
    cbn [console_log emit result fst]. rewrite result_bind, Hload, result_bind.
    cbn [emit result fst]. rewrite result_bind. unfold await at 1.
    cbn [result fst]. rewrite Hdet, result_bind.
    rewrite (truthy_toString_method w id Tid), Hlabel. cbn [orTypeError ret result fst].
    destruct l as [text ds]. cbn [label descriptors] in *. subst ds. reflexivity.
Qed.

(** The sample entry, in the world where everything succeeds. *)
Lemma processSingleFace_returns_iff_witness :
  result (WorkingApi.processSingleFace calmWorld 0 adaEntry)
  = Resolved (Some (mkLabeled "ada" [faceA])).
Proof.
  apply (proj2 (processSingleFace_returns_iff calmWorld 0 adaEntry
                  (mkLabeled "ada" [faceA]))).
  exists (VStr "ada"), (VStr "http://img.example/ada.jpg"), (Some sampleImage), faceA.
  repeat split.
Defined.

(** ** How much work a request can cause *)

Lemma count_bind_le p {A B} (m : M A) (k : A -> M B) n1 n2 :
  count p (trace m) <= n1 ->
  (forall a, count p (trace (k a)) <= n2) ->
  count p (trace (bind m k)) <= n1 + n2.
Proof.
  intros Hm Hk. rewrite trace_bind, count_app.
  destruct (result m) as [a | e]; [specialize (Hk a) | change (count p []) with 0]; lia.
Qed.

Lemma count_try_le p {A} (m : M A) (h : JSError -> M A) n1 n2 :
  count p (trace m) <= n1 ->
  (forall e, count p (trace (h e)) <= n2) ->
  count p (trace (try_catch m h)) <= n1 + n2.
Proof.
  intros Hm Hh. rewrite trace_try, count_app.
  destruct (result m) as [a | e]; [change (count p []) with 0 | specialize (Hh e)]; lia.
Qed.

Lemma count_silent_bind p {A B} (m : M A) (k : A -> M B) n :
  silent p m ->
  (forall a, count p (trace (k a)) <= n) ->
  count p (trace (bind m k)) <= n.
Proof. intros Hm Hk. apply (count_bind_le p m k 0 n); [rewrite Hm; lia | exact Hk]. Qed.

Lemma count_Promise_all_le p {A} (ps : list (M A)) n :
  Forall (fun q => count p (trace q) <= n) ps ->
  count p (trace (Promise_all ps)) <= n * length ps.
Proof.
  rewrite trace_Promise_all.
  induction 1 as [| q ps Hq _ IH]; [cbn; lia |].
  cbn [flat_map length]. rewrite count_app. lia.
Qed.

Lemma length_mapi_from {A B} (f : nat -> A -> B) (l : list A) :
  forall i, length (mapi_from f i l) = length l.
Proof. induction l as [| a l IH]; intros i; simpl; [| rewrite IH]; reflexivity. Qed.

Lemma Forall_mapi_from_all {A B} (P : B -> Prop) (f : nat -> A -> B) (l : list A) :
  (forall i a, P (f i a)) -> forall i, Forall P (mapi_from f i l).
Proof. intros H. induction l as [| a l IH]; intros i; simpl; constructor; auto. Qed.

Section Work.

Import WorkingApi.

Variable w : World.

#[local] Hint Resolve attemptLoad_no_load attemptLoad_no_detect retryLoop_no_load
  retryLoop_no_detect validateDatasetEntry_silent : silence.

Lemma processSingleFace_fetches index data :
  count is_fetch (trace (processSingleFace w index data)) <= MAX_RETRIES.
Proof.
  unfold processSingleFace.
  apply count_silent_bind; [silence |]. intros [id imglink].
  apply (count_try_le _ _ _ MAX_RETRIES 0); [| intros e; apply Nat.eq_le_incl; silence].
  do 3 (apply count_silent_bind; [silence |]; intros ?).
  apply (count_bind_le _ _ _ MAX_RETRIES 0); [apply retryLoop_fetch_bound |].
  intros img. apply Nat.eq_le_incl. silence.
Qed.

Lemma processSingleFace_detections index data :
  count is_detect (trace (processSingleFace w index data)) <= 1.
Proof.
  unfold processSingleFace, loadImageWithRetry.
  apply count_silent_bind; [silence |]. intros [id imglink].
  apply (count_try_le _ _ _ 1 0); [| intros e; apply Nat.eq_le_incl; silence].
  do 4 (apply count_silent_bind; [silence |]; intros ?).
  apply (count_bind_le _ _ _ 1 0); [reflexivity |].
  intros _. apply Nat.eq_le_incl. silence.
Qed.

Lemma loadLabeledImages_fetches dataset :
  count is_fetch (trace (loadLabeledImages w dataset)) <= MAX_RETRIES * length dataset.
Proof.
  unfold loadLabeledImages.
  apply count_silent_bind; [silence |]. intros _.
  replace (MAX_RETRIES * length dataset) with (MAX_RETRIES * length dataset + 0) by lia.
  apply count_bind_le.
  - rewrite <- (length_mapi_from (processSingleFace w) dataset 0).
    apply count_Promise_all_le, Forall_mapi_from_all. apply processSingleFace_fetches.
  - intros vs. apply Nat.eq_le_incl. silence.
Qed.

Lemma loadLabeledImages_detections dataset :
  count is_detect (trace (loadLabeledImages w dataset)) <= length dataset.
Proof.
  unfold loadLabeledImages.
  apply count_silent_bind; [silence |]. intros _.
  replace (length dataset) with (1 * length dataset + 0) by lia.
  apply count_bind_le.
  - rewrite <- (length_mapi_from (processSingleFace w) dataset 0).
    apply count_Promise_all_le, Forall_mapi_from_all. apply processSingleFace_detections.
  - intros vs. apply Nat.eq_le_incl. silence.
Qed.

Lemma initializeModels_no_fetch : silent is_fetch (initializeModels w).
Proof.
  unfold initializeModels, loadNet. silence.
  apply silent_Promise_all. repeat constructor; silence.
Qed.

Lemma initializeModels_no_detect : silent is_detect (initializeModels w).
Proof.
  unfold initializeModels, loadNet. silence.
  apply silent_Promise_all. repeat constructor; silence.
Qed.

Lemma recognise_fetches dataset group_img :
  count is_fetch (trace (recognise w dataset group_img))
  <= MAX_RETRIES * (length dataset + 1).
Proof.
  unfold recognise.
  replace (MAX_RETRIES * (length dataset + 1))
    with (MAX_RETRIES * length dataset + (MAX_RETRIES + 0)) by lia.
  apply count_bind_le; [apply loadLabeledImages_fetches |]. intros labeled.
  apply count_bind_le; [apply retryLoop_fetch_bound |]. intros image.
  apply Nat.eq_le_incl. silence.
Qed.

Lemma recognise_detections dataset group_img :
  count is_detect (trace (recognise w dataset group_img)) <= length dataset + 1.
Proof.
  unfold recognise, loadImageWithRetry.
  replace (length dataset + 1) with (length dataset + (0 + (1 + 0))) by lia.
  apply count_bind_le; [apply loadLabeledImages_detections |]. intros labeled.
  apply count_bind_le; [apply Nat.eq_le_incl; silence |]. intros image.
  apply count_bind_le; [reflexivity |]. intros _.
  apply Nat.eq_le_incl. silence.
Qed.

End Work.

(** [loadLabeledImages] fetches at most [MAX_RETRIES] times per entry and
    runs at most one detection per entry; it loads no model. *)
Theorem loadLabeledImages_work_bound (w : World) (dataset : list Value) :
  let t := trace (WorkingApi.loadLabeledImages w dataset) in
  count is_fetch t <= WorkingApi.MAX_RETRIES * length dataset /\
  count is_detect t <= length dataset /\
  count is_load t = 0.
Proof.
  cbv zeta. split; [apply loadLabeledImages_fetches |].
  split; [apply loadLabeledImages_detections | apply loadLabeledImages_no_load].
Qed.

(** Whatever a request holds and however the world answers, the route
    fetches at most three times per dataset entry and three times for the
    group image, runs at most one detection per entry and one on the group
    image, and reads at most the three nets. *)
Theorem handler_work_bound (w : World) (body dataset : Value) :
  getProp body "dataset" = Some dataset ->
  let t := trace (WorkingApi.handler w (WorkingApi.mkReq body)) in
  count is_fetch t <= WorkingApi.MAX_RETRIES * (length (items_of dataset) + 1) /\
  count is_detect t <= length (items_of dataset) + 1 /\
  count is_load t <= 3.
Proof.
  intros Hd. cbv zeta.
  destruct (getProp_sibling body "dataset" "group_img" dataset Hd) as [group_img Hg].
  destruct (valid_dataset dataset) eqn:Vd.
  2:{ destruct (handler_refuses w body dataset group_img Hd Hg (or_introl Vd))
        as (error & details & ->).
      cbn. lia. }
  destruct (valid_group_img group_img) eqn:Vg.
  2:{ destruct (handler_refuses w body dataset group_img Hd Hg (or_intror Vg))
        as (error & details & ->).
      cbn. lia. }
  rewrite (handler_accepts w body dataset group_img Hd Hg Vd Vg).
  assert (Hrecover : forall p e, p (EvConsoleError "Error in POST handler:" (message e)) = false ->
                                 count p (trace (WorkingApi.recover w e)) <= 0).
  { intros p e Hp. unfold WorkingApi.recover, console_error, emit, bind, ret, count; cbn.
    rewrite Hp. reflexivity. }
  repeat split.
  - replace (WorkingApi.MAX_RETRIES * (length (items_of dataset) + 1))
      with (0 + WorkingApi.MAX_RETRIES * (length (items_of dataset) + 1) + 0) by lia.
    apply count_try_le; [| intros e; apply Hrecover; reflexivity].
    apply count_bind_le; [rewrite (initializeModels_no_fetch w); lia |].
    intros _. apply recognise_fetches.
  - replace (length (items_of dataset) + 1)
      with (0 + (length (items_of dataset) + 1) + 0) by lia.
    apply count_try_le; [| intros e; apply Hrecover; reflexivity].
    apply count_bind_le; [rewrite (initializeModels_no_detect w); lia |].
    intros _. apply recognise_detections.
  - change 3 with (3 + 0 + 0).
    apply count_try_le; [| intros e; apply Hrecover; reflexivity].
    apply count_bind_le.
    + destruct (initializeModels_trace w) as (rest & -> & Hrest).
      rewrite count_app, Hrest. reflexivity.
    + intros _. rewrite (recognise_no_load w). lia.
Qed.

(** One entry that cannot be reached and a group photo that can: three
    fetches for the entry, none for the photo. *)
Lemma handler_work_bound_witness :
  count is_fetch (trace (WorkingApi.handler deadWorld adaRequest)) <= 3 * (1 + 1) /\
  count is_detect (trace (WorkingApi.handler deadWorld adaRequest)) <= 1 + 1 /\
  count is_load (trace (WorkingApi.handler deadWorld adaRequest)) <= 3.
Proof.
  apply (handler_work_bound deadWorld (request (VArr [adaEntry]) groupPhoto)
           (VArr [adaEntry])).
  reflexivity.
Defined.

(** ** The shape of a reference set *)

Lemma filter_not_null_length {A} (vs : list (option A)) :
  length (filter_not_null vs) <= length vs.
Proof. induction vs as [| [a |] vs IH]; simpl; lia. Qed.

(** The members of [filter_not_null vs] sit at increasing positions of
    [vs]. *)
Lemma filter_not_null_positions {A} (vs : list (option A)) : forall base,
  exists positions,
    StronglySorted lt positions /\
    Forall (fun k => base <= k) positions /\
    Forall2 (fun k a => nth_error vs (k - base) = Some (Some a))
      positions (filter_not_null vs).
Proof.
  induction vs as [| v vs IH]; intros base.
  - exists []. repeat constructor.
  - destruct (IH (S base)) as (positions & Hsorted & Hlow & Hnth).
    assert (Hshift : Forall2 (fun k a => nth_error (v :: vs) (k - base) = Some (Some a))
                       positions (filter_not_null vs)).
    { clear - Hlow Hnth. induction Hnth as [| k a ks l Hk _ IHl]; constructor.
      - inversion Hlow; subst.
        replace (k - base) with (S (k - S base)) by lia. exact Hk.
      - apply IHl. inversion Hlow; assumption. }
    destruct v as [a |]; cbn [filter_not_null].
    + exists (base :: positions). repeat split.
      * constructor; [exact Hsorted |].
        eapply Forall_impl; [| exact Hlow]. intros k Hk. cbv beta in Hk. lia.
      * constructor; [lia |]. eapply Forall_impl; [| exact Hlow].
        intros k Hk. cbv beta in Hk. lia.
      * constructor; [rewrite Nat.sub_diag; reflexivity | exact Hshift].
    + exists positions. repeat split; auto.
      eapply Forall_impl; [| exact Hlow]. intros k Hk. cbv beta in Hk. lia.
Qed.

(** A reference set that [loadLabeledImages] returns is never empty and has
    at most one member per dataset entry; its members come from entries at
    increasing positions of the dataset (the order of the dataset is kept,
    ids that occur twice are both kept), and each holds exactly one
    descriptor. *)
Theorem loadLabeledImages_reference_set (w : World) (dataset : list Value)
    (labeled : list LabeledFaceDescriptors) :
  result (WorkingApi.loadLabeledImages w dataset) = Resolved labeled ->
  labeled <> [] /\
  length labeled <= length dataset /\
  exists positions,
    StronglySorted lt positions /\
    Forall2 (fun index l =>
               exists data,
                 nth_error dataset index = Some data /\
                 result (WorkingApi.processSingleFace w index data) = Resolved (Some l) /\
                 length (descriptors l) = 1)
      positions labeled.
Proof.
  intros Hres.
  destruct (result (Promise_all (mapi_from (WorkingApi.processSingleFace w) 0 dataset)))
    as [vs | e] eqn:Hall.
  2:{ rewrite (loadLabeledImages_rejected w _ _ Hall) in Hres. discriminate. }
  rewrite (loadLabeledImages_fan_in w _ _ Hall) in Hres.
  destruct (length (filter_not_null vs) =? 0) eqn:Hlen; [discriminate |].
  injection Hres as <-. apply Nat.eqb_neq in Hlen.
  pose proof (Promise_all_inversion _ _ Hall) as Hsettled.
  split; [intros Hnil; rewrite Hnil in Hlen; apply Hlen; reflexivity |].
  split.
  { pose proof (filter_not_null_length vs) as Hle.
    rewrite <- (Forall2_length Hsettled), length_mapi_from in Hle. exact Hle. }
  destruct (filter_not_null_positions vs 0) as (positions & Hsorted & _ & Hnth).
  exists positions. split; [exact Hsorted |].
  eapply Forall2_impl; [| exact Hnth].
  intros index l Hl. cbv beta in Hl. rewrite Nat.sub_0_r in Hl.
  destruct (Forall2_nth_error_r _ _ _ Hsettled index _ Hl) as (p & Hp & Hpr).
  rewrite nth_error_mapi_from in Hp.
  destruct (nth_error dataset index) as [data |]; [| discriminate].
  injection Hp as <-. exists data. repeat split; auto.
  destruct (processSingleFace_descriptor w index data l Hpr)
    as (_ & _ & _ & descriptor & _ & _ & _ & _ & _ & _ & _ & ->).
  reflexivity.
Qed.

(** A dataset whose second entry is unusable. *)
Lemma loadLabeledImages_reference_set_witness :
  [mkLabeled "ada" [faceA]] <> [] /\
  length [mkLabeled "ada" [faceA]] <= length [adaEntry; ftpEntry] /\
  exists positions,
    StronglySorted lt positions /\
    Forall2 (fun index l =>
               exists data,
                 nth_error [adaEntry; ftpEntry] index = Some data /\
                 result (WorkingApi.processSingleFace calmWorld index data)
                 = Resolved (Some l) /\
                 length (descriptors l) = 1)
      positions [mkLabeled "ada" [faceA]].
Proof.
  apply (loadLabeledImages_reference_set calmWorld [adaEntry; ftpEntry]
           [mkLabeled "ada" [faceA]]).
  reflexivity.
Defined.

(** ** The answers of the route *)

Section Answers.

Import WorkingApi.

Variable w : World.

(** What comes out of the pipeline when it does not throw. *)
Lemma recognise_answers dataset group_img res :
  result (recognise w dataset group_img) = Resolved res ->
  res = mkRes 400 (ClientError "No faces detected in group image" None) \/
  exists results,
    results <> [] /\
    res = mkRes 200 (Matches true (length results) (map (matchEntry w) results)).
Proof.
  unfold recognise. rewrite result_bind.
  destruct (result (loadLabeledImages w dataset)) as [labeled | e]; [| discriminate].
  rewrite result_bind.
  destruct (result (loadImageWithRetry w GroupImage group_img MAX_RETRIES))
    as [image | e]; [| discriminate].
  rewrite result_bind. cbn [emit result fst]. rewrite result_bind.
  unfold await at 1. cbn [result fst].
  destruct (detectAllFaces w image) as [[| d ds] | e]; [| | discriminate].
  - intros [= <-]. left. reflexivity.
  - intros [= <-]. right.
    exists (map (findBestMatch w labeled FACE_MATCHER_THRESHOLD) (d :: ds)).
    split; [discriminate |]. rewrite length_map. reflexivity.
Qed.

Lemma recover_answers e :
  recover w e
  = (Resolved (mkRes 500 (ServerError "Internal server error" (message e)
                            (development_stack w e))),
     [EvConsoleError "Error in POST handler:" (message e)]).
Proof. reflexivity. Qed.

(** Every request is answered in one of three ways. *)
Lemma handler_result_cases req :
  exists res,
    result (handler w req) = Resolved res /\
    ((exists results,
        results <> [] /\
        res = mkRes 200 (Matches true (length results) (map (matchEntry w) results))) \/
     (exists error details, res = mkRes 400 (ClientError error details)) \/
     (exists e,
        res = mkRes 500 (ServerError "Internal server error" (message e)
                           (development_stack w e)))).
Proof.
  assert (Hrecover : forall e, exists res,
             result (recover w e) = Resolved res /\
             ((exists results,
                 results <> [] /\
                 res = mkRes 200 (Matches true (length results)
                                    (map (matchEntry w) results))) \/
              (exists error details, res = mkRes 400 (ClientError error details)) \/
              (exists e,
                 res = mkRes 500 (ServerError "Internal server error" (message e)
                                    (development_stack w e))))).
  { intros e. eexists. split; [reflexivity |]. right; right. exists e. reflexivity. }
  unfold handler. rewrite result_try, result_bind.
  destruct (result (destructure w (req_body req) "dataset" "group_img"))
    as [[dataset group_img] | e]; [| apply Hrecover].
  destruct (negb (truthy dataset) || _ || _);
    [eexists; split; [reflexivity | right; left; eauto] |].
  destruct (negb (truthy group_img) || _);
    [eexists; split; [reflexivity | right; left; eauto] |].
  rewrite result_bind.
  destruct (result (initializeModels w)) as [[] | e]; [| apply Hrecover].
  destruct (result (recognise w (items_of dataset) group_img)) as [res | e] eqn:Hres;
    [| apply Hrecover].
  exists res. split; [reflexivity |].
  destruct (recognise_answers _ _ _ Hres) as [-> | (results & Hne & ->)].
  - right; left. eauto.
  - left. eauto.
Qed.

End Answers.

(** The route always answers, and the status tells the shape of the body:
    200 comes with [success: true], a positive [totalFacesDetected] and as
    many matches; 400 with an error and, for the two input tests, details;
    500 with the error "Internal server error" and the message of what was
    thrown. No other status is sent, and no exception leaves the handler. *)
Theorem handler_always_answers (w : World) (req : WorkingApi.Request) :
  exists res,
    result (WorkingApi.handler w req) = Resolved res /\
    ((WorkingApi.statusCode res = 200 /\
      exists total matches,
        WorkingApi.body res = WorkingApi.Matches true total matches /\
        length matches = total /\ 1 <= total) \/
     (WorkingApi.statusCode res = 400 /\
      exists error details,
        WorkingApi.body res = WorkingApi.ClientError error details) \/
     (WorkingApi.statusCode res = 500 /\
      exists msg stack,
        WorkingApi.body res
        = WorkingApi.ServerError "Internal server error" msg stack)).
Proof.
  destruct (handler_result_cases w req)
    as (res & Hres & [(results & Hne & ->) | [(error & details & ->) | (e & ->)]]);
    eexists; (split; [exact Hres |]); cbn [WorkingApi.statusCode WorkingApi.body].
  - left. split; [reflexivity |]. do 2 eexists. split; [reflexivity |].
    rewrite length_map. split; [reflexivity |].
    destruct results; [contradiction | simpl; lia].
  - right; left. eauto.
  - right; right. eauto.
Qed.

(** A response of the route carries a stack trace exactly when it is a 500
    and [NODE_ENV] is ["development"]: the 200 and 400 answers never carry
    one, whatever the environment, and outside development no answer does.
    The stack sent is that of the error whose message is sent. *)
Theorem handler_stack_only_in_development (w : World) (req : WorkingApi.Request)
    (res : WorkingApi.Response) :
  result (WorkingApi.handler w req) = Resolved res ->
  (response_stack res <> None <->
   WorkingApi.statusCode res = 500 /\ NODE_ENV w = Some "development") /\
  (forall stack,
      response_stack res = Some stack ->
      exists e,
        stack = stackOf w e /\
        res = WorkingApi.mkRes 500
                (WorkingApi.ServerError "Internal server error" (message e) (Some stack))).
Proof.
  destruct (handler_result_cases w req)
    as (res' & -> & [(results & Hne & ->) | [(err & details & ->) | (e & ->)]]);
    intros [= <-]; unfold response_stack; cbn [WorkingApi.body WorkingApi.statusCode].
  - split; [| discriminate]. split; [congruence | intros [[=] _]].
  - split; [| discriminate]. split; [congruence | intros [[=] _]].
  - unfold WorkingApi.development_stack.
    destruct (NODE_ENV w) as [env |].
    2:{ split; [| discriminate]. split; [congruence | intros [_ [=]]]. }
    destruct (String.eqb_spec env "development") as [-> | Hother].
    + split.
      * split; [auto | discriminate].
      * intros stack [= <-]. exists e. split; reflexivity.
    + split; [| discriminate].
      split; [congruence | intros [_ [= ->]]; congruence].
Qed.

(** In development, a request whose only entry cannot be fetched is answered
    with the stack of the error; a request without a dataset is answered 400
    and carries none. *)
Lemma handler_stack_only_in_development_witness :
  response_stack
    (WorkingApi.mkRes 500
       (WorkingApi.ServerError "Internal server error"
          "No valid face descriptors could be generated from the dataset"
          (Some "Error: No valid face descriptors could be generated from the dataset")))
  <> None /\
  response_stack
    (WorkingApi.mkRes 400
       (WorkingApi.ClientError "Invalid dataset format"
          (Some "Dataset must be a non-empty array"))) = None.
Proof.
  split.
  - apply (proj1 (handler_stack_only_in_development (inDevelopment deadWorld) adaRequest
                    _ eq_refl)).
    split; reflexivity.
  - destruct (response_stack _) as [stack |] eqn:Hstack; [| reflexivity].
    destruct (proj1 (proj1 (handler_stack_only_in_development (inDevelopment calmWorld)
                              (WorkingApi.mkReq (VObj [("group_img", groupPhoto)]))
                              _ eq_refl))
                ltac:(rewrite Hstack; discriminate)) as [[=] _].
Defined.

(** ** The order of the work *)

Section Order.

Import WorkingApi.

Variable w : World.

#[local] Hint Resolve validateDatasetEntry_silent : silence.

Lemma attemptLoad_reference_only index url a :
  silent touches_group_image (attemptLoad w (ReferenceImage index) url a).
Proof. unfold attemptLoad. silence. Qed.

#[local] Hint Resolve attemptLoad_reference_only : silence.

Lemma retryLoop_reference_only index url retries remaining :
  silent touches_group_image (retryLoop w (ReferenceImage index) url retries remaining).
Proof. induction remaining as [| r IH]; cbn [retryLoop]; silence. Qed.

#[local] Hint Resolve retryLoop_reference_only : silence.

Lemma loadLabeledImages_reference_only dataset :
  silent touches_group_image (loadLabeledImages w dataset).
Proof.
  unfold loadLabeledImages. silence.
  apply silent_Promise_all, silent_mapi. intros index data.
  unfold processSingleFace, loadImageWithRetry. silence.
Qed.

Lemma initializeModels_reference_only : silent touches_group_image (initializeModels w).
Proof.
  unfold initializeModels, loadNet. silence.
  apply silent_Promise_all. repeat constructor; silence.
Qed.

Lemma initializeModels_resolved :
  result (initializeModels w) = Resolved tt ->
  forall net, loadFromDisk w net = Resolved tt.
Proof.
  intros Hres net.
  destruct (loadFromDisk w net) as [[] | e] eqn:Hnet; [reflexivity |].
  destruct (initializeModels_failed w) as [cause Hfail]; [eauto |].
  rewrite Hfail in Hres. discriminate.
Qed.

(** The number of nets a request reads: three when it passes the input
    tests, none otherwise. *)
Lemma handler_loads body :
  count is_load (trace (handler w (mkReq body)))
  = if passes_input_tests body then 3 else 0.
Proof.
  unfold passes_input_tests.
  destruct (getProp body "dataset") as [dataset |] eqn:Hd.
  2:{ unfold handler, destructure. cbn [req_body]. rewrite Hd. reflexivity. }
  destruct (getProp_sibling body "dataset" "group_img" dataset Hd) as [group_img Hg].
  rewrite Hg, dataset_test, group_img_test, !negb_involutive.
  destruct (valid_dataset dataset) eqn:Vd.
  2:{ destruct (handler_refuses w body dataset group_img Hd Hg (or_introl Vd))
        as (error & details & ->). reflexivity. }
  destruct (valid_group_img group_img) eqn:Vg.
  2:{ destruct (handler_refuses w body dataset group_img Hd Hg (or_intror Vg))
        as (error & details & ->). reflexivity. }
  rewrite (handler_accepts w body dataset group_img Hd Hg Vd Vg).
  rewrite trace_try, trace_bind, !count_app.
  destruct (initializeModels_trace w) as (rest & -> & Hrest).
  rewrite count_app, Hrest.
  match goal with
  | |- _ + _ + count is_load ?mid + count is_load ?last = _ =>
      assert (Hmid : count is_load mid = 0)
        by (destruct (result (initializeModels w));
            [apply recognise_no_load | reflexivity]);
      assert (Hlast : count is_load last = 0)
        by (destruct (result (_ ;;; _)); reflexivity);
      rewrite Hmid, Hlast
  end.
  reflexivity.
Qed.

End Order.

(** The group image is fetched, and faces are looked for in it, only once
    the request has passed the input tests, the three nets have loaded and
    the dataset has given a reference set: when any of these fails, nothing
    is done with the group image. *)
Theorem group_image_touched_last (w : World) (body dataset : Value) :
  getProp body "dataset" = Some dataset ->
  0 < count touches_group_image (trace (WorkingApi.handler w (WorkingApi.mkReq body))) ->
  passes_input_tests body = true /\
  (forall net, loadFromDisk w net = Resolved tt) /\
  exists labeled,
    result (WorkingApi.loadLabeledImages w (items_of dataset)) = Resolved labeled /\
    labeled <> [].
Proof.
  intros Hd.
  destruct (getProp_sibling body "dataset" "group_img" dataset Hd) as [group_img Hg].
  unfold passes_input_tests.
  rewrite Hd, Hg, dataset_test, group_img_test, !negb_involutive.
  destruct (valid_dataset dataset) eqn:Vd.
  2:{ destruct (handler_refuses w body dataset group_img Hd Hg (or_introl Vd))
        as (error & details & ->). cbn. lia. }
  destruct (valid_group_img group_img) eqn:Vg.
  2:{ destruct (handler_refuses w body dataset group_img Hd Hg (or_intror Vg))
        as (error & details & ->). cbn. lia. }
  rewrite (handler_accepts w body dataset group_img Hd Hg Vd Vg).
  rewrite trace_try, trace_bind, !count_app.
  rewrite (initializeModels_reference_only w).
  destruct (result (WorkingApi.initializeModels w)) as [[] | e] eqn:Hinit.
  2:{ rewrite result_bind, Hinit. cbn. lia. }
  pose proof (initializeModels_resolved w Hinit) as Hmodels.
  rewrite result_bind, Hinit.
  unfold WorkingApi.recognise at 1. rewrite trace_bind, count_app.
  rewrite (loadLabeledImages_reference_only w).
  destruct (result (WorkingApi.loadLabeledImages w (items_of dataset)))
    as [labeled | e] eqn:Hlab.
  2:{ unfold WorkingApi.recognise. rewrite result_bind, Hlab. cbn. lia. }
  intros _. repeat split; auto. exists labeled. split; [reflexivity |].
  intros ->. revert Hlab. unfold WorkingApi.loadLabeledImages.
  rewrite result_bind. cbn [console_log emit result fst]. rewrite result_bind.
  destruct (result (Promise_all _)) as [vs |]; [| discriminate].
  rewrite result_bind. cbn [console_log emit result fst].
  destruct (filter_not_null vs); [discriminate | intros [= ]].
Qed.

Lemma group_image_touched_last_witness :
  passes_input_tests (request (VArr [adaEntry]) groupPhoto) = true /\
  (forall net, loadFromDisk calmWorld net = Resolved tt) /\
  exists labeled,
    result (WorkingApi.loadLabeledImages calmWorld (items_of (VArr [adaEntry])))
    = Resolved labeled /\
    labeled <> [].
Proof.
  apply (group_image_touched_last calmWorld (request (VArr [adaEntry]) groupPhoto)
           (VArr [adaEntry])); [reflexivity | vm_compute; lia].
Defined.

(** A process reads the three nets again for every request that passes the
    input tests, and for no other: after any sequence of requests it has
    read nets three times the number of requests that passed. *)
Theorem serve_loads_per_request (w0 : World)
    (requests : list (World * WorkingApi.Request)) :
  count is_load (WorkingApi.serve w0 requests)
  = 3 * length (filter (fun wr => passes_input_tests (WorkingApi.req_body (snd wr)))
                  requests).
Proof.
  unfold WorkingApi.serve. rewrite count_app.
  change (count is_load (WorkingApi.startServer w0)) with 0. cbn [Nat.add].
  induction requests as [| [w [body]] requests IH]; [reflexivity |].
  cbn [flat_map filter fst snd WorkingApi.req_body].
  rewrite count_app, IH, handler_loads.
  destruct (passes_input_tests body); cbn [length]; lia.
Qed.

(** ** The single-shot loader of [part_000] *)

(** [loadImage] of [part_000], by the answers of the world. *)
Lemma part000_loadImage_cases (w : World) (site : CallSite) (url : Value) :
  Part000.loadImage w site url
  = match fetch w site url 1 with
    | Rejected e =>
        (Rejected e, [EvFetch site url 1; EvConsoleError "Error loading image:" (message e)])
    | Resolved r =>
        if ok r
        then match buffer r with
             | Rejected e =>
                 (Rejected e,
                  [EvFetch site url 1; EvConsoleError "Error loading image:" (message e)])
             | Resolved b =>
                 match canvas_loadImage w b with
                 | Rejected e =>
                     (Rejected e,
                      [EvFetch site url 1; EvLoadImage b;
                       EvConsoleError "Error loading image:" (message e)])
                 | Resolved image => (Resolved image, [EvFetch site url 1; EvLoadImage b])
                 end
             end
        else (Rejected (Error ("Failed to fetch image: " +++ statusText r)),
              [EvFetch site url 1;
               EvConsoleError "Error loading image:"
                 ("Failed to fetch image: " +++ statusText r)])
    end.
Proof.
  unfold Part000.loadImage, await, emit, throw, ret, console_error, bind, try_catch.
  destruct (fetch w site url 1) as [r | e]; [| reflexivity].
  destruct (ok r); cbn [negb]; [| reflexivity].
  destruct (buffer r) as [b | e]; [| reflexivity].
  destruct (canvas_loadImage w b); reflexivity.
Qed.

(** [loadImage] of [part_000] asks the network exactly once and never waits.
    When it fails, it has logged the failure once, as the last thing it did,
    and throws what it caught; an answer outside 2xx fails with the status
    text. *)
Theorem part000_loadImage_single_shot (w : World) (site : CallSite) (url : Value) :
  let run := Part000.loadImage w site url in
  count is_fetch (trace run) = 1 /\
  delays (trace run) = [] /\
  (forall e, result run = Rejected e ->
             exists before,
               trace run = before ++ [EvConsoleError "Error loading image:" (message e)]) /\
  (forall r, fetch w site url 1 = Resolved r -> ok r = false ->
             result run = Rejected (Error ("Failed to fetch image: " +++ statusText r))).
Proof.
  cbv zeta. rewrite part000_loadImage_cases.
  destruct (fetch w site url 1) as [r | e0].
  2:{ repeat split; try discriminate.
      intros e [= <-]. exists [EvFetch site url 1]. reflexivity. }
  destruct (ok r) eqn:Hok.
  2:{ repeat split.
      - intros e [= <-]. exists [EvFetch site url 1]. reflexivity.
      - intros r' [= <-] _. reflexivity. }
  destruct (buffer r) as [b | e0].
  2:{ repeat split.
      - intros e [= <-]. exists [EvFetch site url 1]. reflexivity.
      - intros r' [= <-]. congruence. }
  destruct (canvas_loadImage w b) as [image | e0]; repeat split; try discriminate.
  - intros r' [= <-]. congruence.
  - intros e [= <-]. exists [EvFetch site url 1; EvLoadImage b]. reflexivity.
  - intros r' [= <-]. congruence.
Qed.

(** A 404: one fetch, and the status text in the error. *)
Lemma part000_loadImage_single_shot_witness :
  count is_fetch (trace (Part000.loadImage deadWorld GroupImage groupPhoto)) = 1 /\
  result (Part000.loadImage deadWorld GroupImage groupPhoto)
  = Rejected (Error "Failed to fetch image: Not Found").
Proof.
  destruct (part000_loadImage_single_shot deadWorld GroupImage groupPhoto)
    as (Hone & _ & _ & Hstatus).
  split; [exact Hone |].
  apply (Hstatus (mkResponse 404 "Not Found" (Resolved []))); reflexivity.
Defined.

(** ** The route of [part_000] *)

Section OlderRoute.

Import Part000.

Variable w : World.

Lemma part000_models_loaded :
  (forall net, loadFromDisk w net = Resolved tt) ->
  result (Promise_all [loadNet w faceRecognitionNet; loadNet w faceLandmark68Net;
                       loadNet w ssdMobilenetv1]) = Resolved [tt; tt; tt].
Proof.
  intros H. unfold loadNet, await, emit, bind. simpl. rewrite !H. reflexivity.
Qed.

Lemma part000_models_failed :
  (exists net e, loadFromDisk w net = Rejected e) ->
  exists net e,
    loadFromDisk w net = Rejected e /\
    Promise_all [loadNet w faceRecognitionNet; loadNet w faceLandmark68Net;
                 loadNet w ssdMobilenetv1]
    = (Rejected e,
       [EvLoadFromDisk faceRecognitionNet (modelPath w);
        EvLoadFromDisk faceLandmark68Net (modelPath w);
        EvLoadFromDisk ssdMobilenetv1 (modelPath w)]).
Proof.
  intros (net & e & H). unfold loadNet, getAbsoluteModelPath, await, emit, bind. simpl.
  destruct (loadFromDisk w faceRecognitionNet) as [[] | e1] eqn:H1;
    destruct (loadFromDisk w faceLandmark68Net) as [[] | e2] eqn:H2;
    destruct (loadFromDisk w ssdMobilenetv1) as [[] | e3] eqn:H3;
    simpl;
    try (exists faceRecognitionNet, e1; split; [assumption | reflexivity]);
    try (exists faceLandmark68Net, e2; split; [assumption | reflexivity]);
    try (exists ssdMobilenetv1, e3; split; [assumption | reflexivity]).
  destruct net; congruence.
Qed.

Variables body dataset group_img : Value.

Hypothesis Hdataset : getProp body "dataset" = Some dataset.
Hypothesis Hgroup : getProp body "group_img" = Some group_img.
Hypothesis Adataset : isArray dataset = true.
Hypothesis Tgroup : truthy group_img = true.

(** The older route asks less of its input: any array, any truthy
    [group_img]. *)
Lemma part000_handler_accepts :
  handler w (mkReq body)
  = try_catch
      (console_log "Received request" ;;; recognise w dataset group_img)
      (fun error =>
         console_error "Error in POST handler:" (message error) ;;;
         ret (mkRes 500 (ServerError "Internal server error" (message error)))).
Proof.
  unfold handler, destructure. cbn [req_body].
  rewrite Hdataset, Hgroup. unfold orTypeError. rewrite !bind_ret_l.
  assert (Hd : truthy dataset = true) by (destruct dataset; try discriminate; reflexivity).
  rewrite Hd, Adataset, Tgroup. reflexivity.
Qed.

Lemma part000_handler_model_failure :
  (exists net e, loadFromDisk w net = Rejected e) ->
  exists net e,
    loadFromDisk w net = Rejected e /\
    handler w (mkReq body)
    = (Resolved (mkRes 500 (ServerError "Failed to load face recognition models"
                              (message e))),
       [EvConsoleLog "Received request"; EvConsoleLog "Loading models...";
        EvConsoleLog ("Model path: " +++ modelPath w);
        EvLoadFromDisk faceRecognitionNet (modelPath w);
        EvLoadFromDisk faceLandmark68Net (modelPath w);
        EvLoadFromDisk ssdMobilenetv1 (modelPath w);
        EvConsoleError "Error loading models:" (message e)]).
Proof.
  intros Hfail. destruct (part000_models_failed Hfail) as (net & e & Hnet & He).
  exists net, e. split; [exact Hnet |].
  rewrite part000_handler_accepts. unfold recognise.
  rewrite He. reflexivity.
Qed.

Hypothesis Hmodels : forall net, loadFromDisk w net = Resolved tt.

(** With the models in, the response is decided by the reference set, the
    loading of the group photo and the detection on it. *)
Lemma part000_handler_outcome :
  result (handler w (mkReq body))
  = match result (loadLabeledImages w (items_of dataset)) with
    | Rejected e => Resolved (mkRes 500 (ServerError "Internal server error" (message e)))
    | Resolved [] =>
        Resolved (mkRes 400 (ClientError
                    "No valid face descriptors could be generated from the dataset"))
    | Resolved labeled =>
        match result (loadImage w GroupImage group_img) with
        | Rejected e =>
            Resolved (mkRes 500 (ServerError "Failed to process group image" (message e)))
        | Resolved image =>
            match detectAllFaces w (Some image) with
            | Rejected e =>
                Resolved (mkRes 500 (ServerError "Failed to process group image"
                                       (message e)))
            | Resolved detections =>
                Resolved (mkRes 200 (Matches true
                  (map (fun d =>
                          let r := findBestMatch w labeled 0x1.3333333333333p-1%float d in
                          mkMatch (match_label r) (match_distance r))
                     detections)))
            end
        end
    end.
Proof.
  rewrite part000_handler_accepts. unfold recognise.
  pose proof (part000_models_loaded Hmodels) as Hloaded.
  destruct (Promise_all _) as [loaded loads]. cbn [result fst] in Hloaded. subst loaded.
  destruct (loadLabeledImages w (items_of dataset)) as [[[| l labeled] | e] t1];
    [reflexivity | | reflexivity].
  destruct (loadImage w GroupImage group_img) as [[image | e] t2]; [| reflexivity].
  unfold await. cbn.
  destruct (detectAllFaces w (Some image)) as [detections | e]; [| reflexivity].
  cbn. rewrite map_map. reflexivity.
Qed.

End OlderRoute.

(** In [part_000], once the request is accepted, the models are in and the
    dataset has given at least one descriptor, the group photo decides: when
    it loads and detection runs, the answer is 200 with one match per face
    found, in detection order, and so with an empty [matches] when no face is
    found (where [working_api.js] answers 400); when loading it or detecting
    on it fails, the answer is 500 "Failed to process group image". *)
Theorem part000_group_image_outcomes (w : World) (body dataset group_img : Value)
    (labeled : list LabeledFaceDescriptors) :
  getProp body "dataset" = Some dataset ->
  getProp body "group_img" = Some group_img ->
  isArray dataset = true ->
  truthy group_img = true ->
  (forall net, loadFromDisk w net = Resolved tt) ->
  result (Part000.loadLabeledImages w (items_of dataset)) = Resolved labeled ->
  labeled <> [] ->
  let load := result (Part000.loadImage w GroupImage group_img) in
  let response := result (Part000.handler w (Part000.mkReq body)) in
  (forall image detections,
      load = Resolved image -> detectAllFaces w (Some image) = Resolved detections ->
      exists matches,
        response = Resolved (Part000.mkRes 200 (Part000.Matches true matches)) /\
        length matches = length detections /\
        matches = map (fun d =>
                         let r := findBestMatch w labeled 0x1.3333333333333p-1%float d in
                         Part000.mkMatch (match_label r) (match_distance r))
                    detections) /\
  (forall e,
      load = Rejected e ->
      response = Resolved (Part000.mkRes 500
                   (Part000.ServerError "Failed to process group image" (message e)))) /\
  (forall image e,
      load = Resolved image -> detectAllFaces w (Some image) = Rejected e ->
      response = Resolved (Part000.mkRes 500
                   (Part000.ServerError "Failed to process group image" (message e)))).
Proof.
  intros Hd Hg Ad Tg Hm Hl Hne load response. unfold response, load.
  rewrite (part000_handler_outcome w body dataset group_img Hd Hg Ad Tg Hm), Hl.
  destruct labeled as [| l labeled]; [contradiction |].
  repeat split.
  - intros image detections -> ->. eexists. split; [reflexivity |].
    split; [apply length_map | reflexivity].
  - intros e ->. reflexivity.
  - intros image e -> ->. reflexivity.
Qed.

(** A group photo that shows nobody, and one that cannot be reached. *)
Lemma part000_group_image_outcomes_witness :
  (exists matches,
     result (Part000.handler emptyPhotoWorld
               (Part000.mkReq (request (VArr [adaEntry]) groupPhoto)))
     = Resolved (Part000.mkRes 200 (Part000.Matches true matches)) /\
     length matches = 0 /\ matches = []) /\
  result (Part000.handler groupUnreachableWorld
            (Part000.mkReq (request (VArr [adaEntry]) groupPhoto)))
  = Resolved (Part000.mkRes 500
                (Part000.ServerError "Failed to process group image"
                   "Failed to fetch image: Not Found")).
Proof.
  split.
  - apply (proj1 (part000_group_image_outcomes emptyPhotoWorld
                    (request (VArr [adaEntry]) groupPhoto) (VArr [adaEntry]) groupPhoto
                    [mkLabeled "ada" [faceA]]
                    eq_refl eq_refl eq_refl eq_refl (fun _ => eq_refl) eq_refl
                    ltac:(discriminate))
             sampleImage []); reflexivity.
  - apply (proj1 (proj2 (part000_group_image_outcomes groupUnreachableWorld
                    (request (VArr [adaEntry]) groupPhoto) (VArr [adaEntry]) groupPhoto
                    [mkLabeled "ada" [faceA]]
                    eq_refl eq_refl eq_refl eq_refl (fun _ => eq_refl) eq_refl
                    ltac:(discriminate)))
             (Error "Failed to fetch image: Not Found")).
    reflexivity.
Defined.

(** In [part_000] a request whose dataset yields no descriptor is answered
    400, after the models have been read. The input test lets an empty array
    through, so this is also the answer to [dataset: []]. *)
Theorem part000_no_descriptor_answered_400 (w : World) (body dataset group_img : Value) :
  getProp body "dataset" = Some dataset ->
  getProp body "group_img" = Some group_img ->
  isArray dataset = true ->
  truthy group_img = true ->
  (forall net, loadFromDisk w net = Resolved tt) ->
  result (Part000.loadLabeledImages w (items_of dataset)) = Resolved [] ->
  result (Part000.handler w (Part000.mkReq body))
  = Resolved (Part000.mkRes 400
      (Part000.ClientError "No valid face descriptors could be generated from the dataset")).
Proof.
  intros Hd Hg Ad Tg Hm Hl.
  rewrite (part000_handler_outcome w body dataset group_img Hd Hg Ad Tg Hm), Hl.
  reflexivity.
Qed.

Lemma part000_no_descriptor_answered_400_witness :
  result (Part000.handler calmWorld (Part000.mkReq (request (VArr []) groupPhoto)))
  = Resolved (Part000.mkRes 400
      (Part000.ClientError "No valid face descriptors could be generated from the dataset")).
Proof.
  apply (part000_no_descriptor_answered_400 calmWorld (request (VArr []) groupPhoto)
           (VArr []) groupPhoto); try reflexivity.
Defined.

(** In [part_000] a net that fails to load is answered 500 "Failed to load
    face recognition models", with the message of the failure as it came;
    the three nets have been asked for, and nothing has been fetched or
    detected. *)
Theorem part000_model_failure_answered_500 (w : World) (body dataset group_img : Value) :
  getProp body "dataset" = Some dataset ->
  getProp body "group_img" = Some group_img ->
  isArray dataset = true ->
  truthy group_img = true ->
  (exists net e, loadFromDisk w net = Rejected e) ->
  let run := Part000.handler w (Part000.mkReq body) in
  (exists net e,
     loadFromDisk w net = Rejected e /\
     result run = Resolved (Part000.mkRes 500
                    (Part000.ServerError "Failed to load face recognition models"
                       (message e)))) /\
  count is_load (trace run) = 3 /\
  count is_fetch (trace run) = 0 /\
  count is_detect (trace run) = 0.
Proof.
  intros Hd Hg Ad Tg Hfail. cbv zeta.
  destruct (part000_handler_model_failure w body dataset group_img Hd Hg Ad Tg Hfail)
    as (net & e & Hnet & ->).
  split; [exists net, e; split; [exact Hnet | reflexivity] |].
  repeat split.
Qed.

Lemma part000_model_failure_answered_500_witness :
  (exists net e,
     loadFromDisk brokenDiskWorld net = Rejected e /\
     result (Part000.handler brokenDiskWorld
               (Part000.mkReq (request (VArr [adaEntry]) groupPhoto)))
     = Resolved (Part000.mkRes 500
                   (Part000.ServerError "Failed to load face recognition models"
                      (message e)))) /\
  count is_load (trace (Part000.handler brokenDiskWorld
                          (Part000.mkReq (request (VArr [adaEntry]) groupPhoto)))) = 3 /\
  count is_fetch (trace (Part000.handler brokenDiskWorld
                           (Part000.mkReq (request (VArr [adaEntry]) groupPhoto)))) = 0 /\
  count is_detect (trace (Part000.handler brokenDiskWorld
                            (Part000.mkReq (request (VArr [adaEntry]) groupPhoto)))) = 0.
Proof.
  apply (part000_model_failure_answered_500 brokenDiskWorld
           (request (VArr [adaEntry]) groupPhoto) (VArr [adaEntry]) groupPhoto);
    try reflexivity.
  exists faceLandmark68Net, (Error "ENOENT: no such file or directory"). reflexivity.
Defined.

Lemma part000_recognise_answers (w : World) (dataset group_img : Value) res :
  result (Part000.recognise w dataset group_img) = Resolved res -> part000_answer res.
Proof.
  unfold Part000.recognise, part000_answer.
  destruct (Promise_all _) as [[loaded | e] loads].
  2:{ intros [= <-]. right; right. split; [reflexivity |].
      do 2 eexists. split; [reflexivity | auto]. }
  destruct (Part000.loadLabeledImages w (items_of dataset)) as [[[| l labeled] | e] t1];
     [| | discriminate].
  { intros [= <-]. right; left. split; [reflexivity |]. auto. }
  destruct (Part000.loadImage w GroupImage group_img) as [[image | e] t2].
  2:{ intros [= <-]. right; right. split; [reflexivity |].
      do 2 eexists. split; [reflexivity | auto]. }
  unfold await. cbn.
  destruct (detectAllFaces w (Some image)) as [detections | e]; intros [= <-].
  - left. split; [reflexivity |]. eexists. reflexivity.
  - right; right. split; [reflexivity |]. do 2 eexists. split; [reflexivity | auto].
Qed.

(** The route of [part_000] always answers too: with 200 and the matches,
    with 400 for a dataset that is no array, a falsy [group_img] or a dataset
    without a usable entry, or with 500 and one of its three error texts; no
    exception leaves the handler. *)
Theorem part000_handler_always_answers (w : World) (req : Part000.Request) :
  exists res,
    result (Part000.handler w req) = Resolved res /\
    ((Part000.statusCode res = 200 /\
      exists matches, Part000.body res = Part000.Matches true matches) \/
     (Part000.statusCode res = 400 /\
      ((exists received,
          Part000.body res = Part000.InvalidDataset "Invalid dataset format" received) \/
       Part000.body res = Part000.ClientError "Missing group_img" \/
       Part000.body res = Part000.ClientError
         "No valid face descriptors could be generated from the dataset")) \/
     (Part000.statusCode res = 500 /\
      exists error msg,
        Part000.body res = Part000.ServerError error msg /\
        (error = "Failed to load face recognition models" \/
         error = "Failed to process group image" \/
         error = "Internal server error"))).
Proof.
  change (exists res, result (Part000.handler w req) = Resolved res /\ part000_answer res).
  assert (Hcatch : forall e,
             exists res,
               result (console_error "Error in POST handler:" (message e) ;;;
                       ret (Part000.mkRes 500
                              (Part000.ServerError "Internal server error" (message e))))
               = Resolved res /\ part000_answer res).
  { intros e. eexists. split; [reflexivity |]. right; right. split; [reflexivity |].
    do 2 eexists. split; [reflexivity | auto]. }
  unfold Part000.handler. rewrite result_try, result_bind.
  cbn [console_log emit result fst]. rewrite result_bind.
  destruct (result (destructure w (Part000.req_body req) "dataset" "group_img"))
    as [[dataset group_img] | e]; [| apply Hcatch].
  destruct (negb (truthy dataset) || negb (isArray dataset)).
  { eexists. split; [reflexivity |]. right; left. split; [reflexivity |].
    left. eexists. reflexivity. }
  destruct (negb (truthy group_img)).
  { eexists. split; [reflexivity |]. right; left. split; [reflexivity |]. auto. }
  destruct (result (Part000.recognise w dataset group_img)) as [res | e] eqn:Hres;
    [| apply Hcatch].
  exists res. split; [reflexivity |]. exact (part000_recognise_answers _ _ _ _ Hres).
Qed.

(** ** The reference set of [part_000] *)

Section OlderEntries.

Import Part000.

Variable w : World.

Lemma processEntry_settles index data :
  is_DatasetEntry data = true ->
  exists r, result (processEntry w index data) = Resolved r.
Proof.
  intros Htyped.
  destruct (is_DatasetEntry_id w data Htyped) as (id & Hid & Hshow).
  destruct (getProp_sibling data "id" "imglink" id Hid) as [imglink Himg].
  unfold processEntry, destructure. rewrite Hid, Himg.
  unfold orTypeError at 1 2. rewrite !bind_ret_l.
  destruct (negb (truthy id) || _); [eexists; reflexivity |].
  rewrite result_try.
  destruct (result (bind _ _)) as [r | e]; [eauto |].
  destruct (ToString w id) as [shown |]; [| congruence].
  eexists. reflexivity.
Qed.

Lemma processEntry_fetches index data :
  count is_fetch (trace (processEntry w index data)) <= 1.
Proof.
  unfold processEntry.
  apply count_silent_bind; [silence |]. intros [id imglink].
  destruct (negb (truthy id) || _); [apply Nat.le_trans with 0; [apply Nat.eq_le_incl; silence | lia] |].
  apply (count_try_le _ _ _ 1 0); [| intros e; apply Nat.eq_le_incl; silence].
  do 2 (apply count_silent_bind; [silence |]; intros ?).
  apply (count_bind_le _ _ _ 1 0).
  - rewrite part000_loadImage_cases.
    destruct (fetch w (ReferenceImage index) imglink 1) as [r | e]; [| reflexivity].
    destruct (ok r); [| reflexivity].
    destruct (buffer r) as [b | e]; [| reflexivity].
    destruct (canvas_loadImage w b); reflexivity.
  - intros img. apply Nat.eq_le_incl. silence.
Qed.

End OlderEntries.

(** [loadLabeledImages] of [part_000] never throws on a dataset of well-typed
    entries: it returns the descriptors of the entries that gave one,
    possibly none at all, having fetched at most once per entry. *)
Theorem part000_loadLabeledImages_total (w : World) (dataset : list Value) :
  Forall (fun e => is_DatasetEntry e = true) dataset ->
  exists vs,
    Forall2 (fun p v => result p = Resolved v)
      (mapi_from (Part000.processEntry w) 0 dataset) vs /\
    result (Part000.loadLabeledImages w dataset) = Resolved (filter_not_null vs) /\
    length (filter_not_null vs) <= length dataset /\
    count is_fetch (trace (Part000.loadLabeledImages w dataset)) <= length dataset.
Proof.
  intros Htyped.
  destruct (Promise_all_settles (mapi_from (Part000.processEntry w) 0 dataset))
    as [vs Hall].
  { apply Forall_mapi_from. intros n a Hn.
    apply processEntry_settles.
    rewrite Forall_forall in Htyped. apply Htyped. eapply nth_error_In; eauto. }
  pose proof (Promise_all_inversion _ _ Hall) as Hsettled.
  exists vs. split; [exact Hsettled |]. split; [| split].
  - unfold Part000.loadLabeledImages.
    rewrite result_bind. cbn [console_log emit result fst].
    rewrite result_bind, Hall, result_bind. reflexivity.
  - pose proof (filter_not_null_length vs) as Hle.
    rewrite <- (Forall2_length Hsettled), length_mapi_from in Hle. exact Hle.
  - unfold Part000.loadLabeledImages.
    apply count_silent_bind; [silence |]. intros _.
    replace (length dataset) with (1 * length dataset + 0) by lia.
    apply count_bind_le.
    + rewrite <- (length_mapi_from (Part000.processEntry w) dataset 0).
      apply count_Promise_all_le, Forall_mapi_from_all. apply processEntry_fetches.
    + intros rs. apply Nat.eq_le_incl. silence.
Qed.

(** Two entries of the right type, neither of which can be fetched: the
    reference set is empty, and no exception is raised. *)
Lemma part000_loadLabeledImages_total_witness :
  exists vs,
    Forall2 (fun p v => result p = Resolved v)
      (mapi_from (Part000.processEntry deadWorld) 0 [adaEntry; ftpEntry]) vs /\
    result (Part000.loadLabeledImages deadWorld [adaEntry; ftpEntry])
    = Resolved (filter_not_null vs) /\
    length (filter_not_null vs) <= 2 /\
    count is_fetch (trace (Part000.loadLabeledImages deadWorld [adaEntry; ftpEntry])) <= 2.
Proof.
  apply (part000_loadLabeledImages_total deadWorld [adaEntry; ftpEntry]).
  repeat constructor.
Defined.
